(** * Folder hierarchy generator: a shallow embedding and its properties

    The program under study is [scripts/folder-hierarchy-generator.py]:
    a recursive builder, [get_folder_hierarchy], that turns a directory
    tree into nested dictionaries, and a driver, [main], that validates
    the root path, calls the builder and writes the result as JSON.

    Python values are modelled as follows.
    - [str] is [string], a sequence of bytes: the UTF-8 encoding of the
      text, where a byte that [os.fsdecode] could not decode stands for the
      lone surrogate by which Python represents it (PEP 383).  A name is
      thus exactly the bytes that the file system has for it, a non-ASCII
      name has bytes above 127, and a string can be written to a UTF-8
      file when its bytes are well-formed UTF-8 ([valid_utf8]).
    - [dict] is an association list in insertion order whose keys are kept
      unique by [dict_set], as [d[k] = v] does.
    - Exceptions are explicit: a fallible call returns a [fallible] value.
    - The file system is a finite tree ([node]); each node records what
      [Path.is_dir] and [Path.iterdir] do on it. *)

From Stdlib Require Import String Ascii List Bool Arith Lia Permutation.
Import ListNotations.
Open Scope list_scope.
Open Scope string_scope.

Set Implicit Arguments.

(** ** Exceptions and fallible computations *)

(** The exceptions of the [pathlib] and [os] calls.  They are all
    subclasses of [Exception]; the builder's handlers tell
    [PermissionError] from the rest.  Each carries its [str()]. *)
Inductive exception : Type :=
| PermissionError (msg : string)
| Exception (msg : string).

Definition str (e : exception) : string :=
  match e with
  | PermissionError msg => msg
  | Exception msg => msg
  end.

Inductive fallible (A : Type) : Type :=
| Ok (a : A)
| Raise (e : exception).

Arguments Ok {A} a.
Arguments Raise {A} e.

Definition bind {A B : Type} (m : fallible A) (k : A -> fallible B) : fallible B :=
  match m with
  | Ok a => k a
  | Raise e => Raise e
  end.

(** [try: body except ...: handler] *)
Definition try_except {A : Type} (body : fallible A)
    (handler : exception -> fallible A) : fallible A :=
  match body with
  | Ok a => Ok a
  | Raise e => handler e
  end.

Declare Scope py_scope.
Delimit Scope py_scope with py.
Notation "x <- m ;; k" := (bind m (fun x => k))
  (at level 61, m at next level, right associativity) : py_scope.
Notation "' p <- m ;; k" := (bind m (fun p => k))
  (at level 61, p pattern, m at next level, right associativity) : py_scope.
Open Scope py_scope.

(** A list comprehension whose condition may raise. *)
Fixpoint filterM {A : Type} (cond : A -> fallible bool) (l : list A)
    : fallible (list A) :=
  match l with
  | [] => Ok []
  | x :: l' =>
      b <- cond x ;;
      rest <- filterM cond l' ;;
      Ok (if b then x :: rest else rest)
  end.

(** A [for] loop that threads a local variable and whose body may raise. *)
Fixpoint foldM {A S : Type} (step : S -> A -> fallible S) (l : list A) (s : S)
    : fallible S :=
  match l with
  | [] => Ok s
  | x :: l' => s' <- step s x ;; foldM step l' s'
  end.

(** ** Python values: strings and dictionaries *)

Unset Elimination Schemes.

Inductive value : Type :=
| VStr (s : string)
| VDict (items : list (string * value)).

Set Elimination Schemes.

Definition dict : Type := list (string * value).

(** [d[k] = v]: an existing key keeps its position and takes the new
    value, a new key goes to the end. *)
Fixpoint dict_set (k : string) (v : value) (d : dict) : dict :=
  match d with
  | [] => [(k, v)]
  | (k', v') :: d' =>
      if String.eqb k k' then (k', v) :: d'
      else (k', v') :: dict_set k v d'
  end.

(** [d.get(k)] *)
Fixpoint dict_get (k : string) (d : dict) : option value :=
  match d with
  | [] => None
  | (k', v') :: d' => if String.eqb k k' then Some v' else dict_get k d'
  end.

(** [dict(pairs)] *)
Definition dict_of_pairs (pairs : list (string * value)) : dict :=
  fold_left (fun d kv => dict_set (fst kv) (snd kv) d) pairs [].

(** ** The file system *)

(** What a path refers to, as the builder can observe it.
    - [File]: [is_dir()] is [False] (a regular file, a broken link, ...).
    - [Dir err entries]: [is_dir()] is [True]; the directory holds
      [entries]; [iterdir()] yields them when [err] is [None] and raises
      [e] when [err] is [Some e] (an unreadable directory still has its
      entries, the program just cannot see them).
    - [NoStat e]: [is_dir()] raises [e] (an entry of a directory without
      search permission, on the Python versions whose [Path.is_dir]
      propagates such errors).
    A link to a directory is the directory it points to; trees are
    finite, so link cycles are outside the model. *)
Unset Elimination Schemes.

Inductive node : Type :=
| File
| Dir (err : option exception) (entries : list (string * node))
| NoStat (e : exception).

Set Elimination Schemes.

(** [item.is_dir()] *)
Definition is_dir (item : node) : fallible bool :=
  match item with
  | File => Ok false
  | Dir _ _ => Ok true
  | NoStat e => Raise e
  end.

(** [path_obj.iterdir()], as the list of its items with their names.
    The message of the exception raised on a file also names the path,
    which a tree does not record. *)
Definition iterdir (path_obj : node) : fallible (list (string * node)) :=
  match path_obj with
  | File => Raise (Exception "[Errno 20] Not a directory")
  | Dir None entries => Ok entries
  | Dir (Some e) _ => Raise e
  | NoStat e => Raise e
  end.

(** [name.startswith('.')] *)
Definition startswith_dot (name : string) : bool :=
  match name with
  | String c _ => Ascii.eqb c "."%char
  | EmptyString => false
  end.

(** [name in ignore_folders] *)
Definition contains (ignore_folders : list string) (name : string) : bool :=
  existsb (String.eqb name) ignore_folders.

(** ** The builder *)

(** The condition of the list comprehension, with Python's
    short-circuit [and]:
    [not item.name.startswith('.') and item.is_dir()
     and item.name not in ignore_folders]. *)
Definition keep (ignore_folders : list string) (item : string * node)
    : fallible bool :=
  if negb (startswith_dot (fst item)) then
    d <- is_dir (snd item) ;;
    if d then Ok (negb (contains ignore_folders (fst item))) else Ok false
  else Ok false.

(** [items = [item for item in path_obj.iterdir() if ...]] *)
Definition list_items (path_obj : node) (ignore_folders : list string)
    : fallible (list (string * node)) :=
  entries <- iterdir path_obj ;;
  filterM (keep ignore_folders) entries.

Definition error_dict (msg : string) : value :=
  VDict [("error", VStr msg)].

(** The two [except] clauses. *)
Definition handler (e : exception) : fallible value :=
  match e with
  | PermissionError _ => Ok (error_dict "Permission denied")
  | Exception _ => Ok (error_dict (str e))
  end.

Definition default_ignore (ignore_folders : option (list string))
    : list string :=
  match ignore_folders with
  | None => []
  | Some l => l
  end.

(** The body of [get_folder_hierarchy], statement by statement, with the
    recursive call as the parameter [self]. *)
Definition get_folder_hierarchy_body
    (self : node -> option (list string) -> fallible value)
    (path : node) (ignore_folders : option (list string)) : fallible value :=
  let result : dict := [] in
  let path_obj := path in
  let ignore_folders := default_ignore ignore_folders in
  try_except
    (items <- list_items path_obj ignore_folders ;;
     result <- foldM
       (fun result item =>
          sub <- self (snd item) (Some ignore_folders) ;;
          Ok (dict_set (fst item) sub result))
       items result ;;
     Ok (VDict result))
    handler.

(** The [for] loop over the entries of a directory whose comprehension
    has been evaluated without raising: the condition is tested again on
    each entry, which gives the items in the same order. *)
Fixpoint loop_entries (self : node -> fallible value)
    (ignore_folders : list string) (entries : list (string * node))
    (result : dict) {struct entries} : fallible value :=
  match entries with
  | [] => Ok (VDict result)
  | item :: entries' =>
      match keep ignore_folders item with
      | Ok true =>
          match self (snd item) with
          | Ok sub =>
              loop_entries self ignore_folders entries'
                (dict_set (fst item) sub result)
          | Raise e => handler e
          end
      | _ => loop_entries self ignore_folders entries' result
      end
  end.

(** The recursive function itself.  Structural recursion needs the loop
    to run over the entries of [path] rather than over the filtered
    [items]; [get_folder_hierarchy_unfold] below shows that the function
    is the body above applied to itself. *)
Fixpoint get_folder_hierarchy (path : node)
    (ignore_folders : option (list string)) {struct path} : fallible value :=
  let ig := default_ignore ignore_folders in
  match path with
  | Dir None entries =>
      match filterM (keep ig) entries with
      | Raise e => handler e
      | Ok _ =>
          loop_entries (fun item => get_folder_hierarchy item (Some ig))
            ig entries []
      end
  | _ =>
      match iterdir path with
      | Raise e => handler e
      | Ok _ => Ok (VDict [])
      end
  end.

(** [get_folder_hierarchy(path, ...)] called with a path string: [Path(path)]
    is whatever the file system has at that path.  Listing a path that
    does not exist raises [FileNotFoundError]. *)
Definition get_folder_hierarchy_at (lookup : string -> option node)
    (path : string) (ignore_folders : option (list string)) : fallible value :=
  match lookup path with
  | Some path_obj => get_folder_hierarchy path_obj ignore_folders
  | None => handler (Exception "[Errno 2] No such file or directory")
  end.

(** ** Text files opened with [encoding='utf-8']

    The codec is strict: writing a string that holds a lone surrogate
    raises [UnicodeEncodeError], and reading bytes that are not
    well-formed UTF-8 raises [UnicodeDecodeError].  On the byte view of
    strings both are the same test, the automaton of well-formed UTF-8
    (Unicode, table 3-7: no overlong form, no surrogate, nothing above
    U+10FFFF). *)

Inductive utf8_state : Type :=
| Start     (* between characters *)
| Tail1     (* one byte 80..BF to come *)
| Tail2     (* two bytes 80..BF to come *)
| Tail3     (* three bytes 80..BF to come *)
| AfterE0   (* A0..BF, then one *)
| AfterED   (* 80..9F, then one *)
| AfterF0   (* 90..BF, then two *)
| AfterF4.  (* 80..8F, then two *)

Definition between (lo hi n : nat) : bool := (lo <=? n)%nat && (n <=? hi)%nat.

Definition utf8_step (st : utf8_state) (c : ascii) : option utf8_state :=
  let n := nat_of_ascii c in
  match st with
  | Start =>
      if (n <? 128)%nat then Some Start
      else if between 194 223 n then Some Tail1
      else if (n =? 224)%nat then Some AfterE0
      else if between 225 236 n then Some Tail2
      else if (n =? 237)%nat then Some AfterED
      else if between 238 239 n then Some Tail2
      else if (n =? 240)%nat then Some AfterF0
      else if between 241 243 n then Some Tail3
      else if (n =? 244)%nat then Some AfterF4
      else None
  | Tail1 => if between 128 191 n then Some Start else None
  | Tail2 => if between 128 191 n then Some Tail1 else None
  | Tail3 => if between 128 191 n then Some Tail2 else None
  | AfterE0 => if between 160 191 n then Some Tail1 else None
  | AfterED => if between 128 159 n then Some Tail1 else None
  | AfterF0 => if between 144 191 n then Some Tail2 else None
  | AfterF4 => if between 128 143 n then Some Tail2 else None
  end.

Fixpoint utf8_run (st : utf8_state) (s : string) : option utf8_state :=
  match s with
  | EmptyString => Some st
  | String c s' =>
      match utf8_step st c with
      | Some st' => utf8_run st' s'
      | None => None
      end
  end.

Definition valid_utf8 (s : string) : bool :=
  match utf8_run Start s with
  | Some Start => true
  | _ => false
  end.

(** Every string of a value can be encoded. *)
Fixpoint encodable (v : value) : bool :=
  match v with
  | VStr s => valid_utf8 s
  | VDict items =>
      forallb (fun kv => valid_utf8 (fst kv) && encodable (snd kv)) items
  end.

(** The exception of the codec; its message, which names the character
    and its position, is abridged. *)
Definition UnicodeEncodeError : exception :=
  Exception "'utf-8' codec can't encode character: surrogates not allowed".

(** ** Writing the document: [json.dump(..., indent=2, ensure_ascii=False)]

    [json] is Python's standard library.  The definitions below follow
    [json.encoder] ([ESCAPE_DCT], [py_encode_basestring],
    [_iterencode_dict]) on the values the builder produces: strings and
    dictionaries with string keys.  With [ensure_ascii=False] only the
    quote, the backslash and the control characters below 0x20 are
    escaped; every other character is written as it is.  The escaped
    characters are ASCII and so are their escapes, and UTF-8 encodes
    ASCII characters as themselves and no other character with a byte
    below 0x80: escaping the characters and then encoding them is
    escaping the bytes. *)

Definition quote : ascii := "034"%char.
Definition backslash : ascii := "092"%char.
Definition newline : ascii := "010"%char.

Definition hex_digit (n : nat) : ascii :=
  match String.get n "0123456789abcdef" with
  | Some c => c
  | None => "0"%char
  end.

(** [ESCAPE_DCT[c]] for the characters matched by [ESCAPE], the
    character itself otherwise. *)
Definition escape_char (c : ascii) : string :=
  let esc (x : ascii) := String backslash (String x EmptyString) in
  if Ascii.eqb c backslash then esc backslash
  else if Ascii.eqb c quote then esc quote
  else if Ascii.eqb c "008"%char then esc "b"%char
  else if Ascii.eqb c "012"%char then esc "f"%char
  else if Ascii.eqb c "010"%char then esc "n"%char
  else if Ascii.eqb c "013"%char then esc "r"%char
  else if Ascii.eqb c "009"%char then esc "t"%char
  else if (nat_of_ascii c <? 32)%nat then
    String backslash
      (String "u" (String "0" (String "0"
         (String (hex_digit (nat_of_ascii c / 16))
            (String (hex_digit (nat_of_ascii c mod 16)) EmptyString)))))
  else String c EmptyString.

Fixpoint escape (s : string) : string :=
  match s with
  | EmptyString => EmptyString
  | String c s' => escape_char c ++ escape s'
  end.

(** [py_encode_basestring(s)] *)
Definition encode_basestring (s : string) : string :=
  String quote (escape s ++ String quote EmptyString).

Fixpoint spaces (n : nat) : string :=
  match n with
  | 0 => EmptyString
  | S n' => String " " (spaces n')
  end.

(** ['\n' + _indent * _current_indent_level], with [_indent] two spaces. *)
Definition newline_indent (current_indent_level : nat) : string :=
  String newline (spaces (2 * current_indent_level)).

(** [_iterencode], all chunks joined.  With an indent the item separator
    is [","] followed by the new line and its indentation, and the key
    separator is [": "]. *)
Fixpoint iterencode (o : value) (current_indent_level : nat) {struct o}
    : string :=
  match o with
  | VStr s => encode_basestring s
  | VDict [] => "{}"
  | VDict dct =>
      let level := S current_indent_level in
      let item_separator := "," ++ newline_indent level in
      "{" ++ newline_indent level
        ++ String.concat item_separator
             (map (fun kv =>
                     encode_basestring (fst kv) ++ ": "
                       ++ iterencode (snd kv) level) dct)
        ++ newline_indent current_indent_level ++ "}"
  end.

Definition dumps (obj : value) : string := iterencode obj 0.

(** ** Reading the document back: [json.loads]

    The definitions follow [json.decoder] ([py_scanstring], [JSONObject])
    and [json.scanner] on the same fragment: a value is a string or an
    object.  Arrays, numbers, literals and [\u] escapes of characters
    above 0x7f are not part of the fragment and are rejected here; the
    writer above never produces them.  [None] stands for
    [JSONDecodeError]. *)

Definition is_whitespace (c : ascii) : bool :=
  Ascii.eqb c " " || Ascii.eqb c "009" || Ascii.eqb c "010"
  || Ascii.eqb c "013".

(** [WHITESPACE.match(s, end).end()] *)
Fixpoint skip_whitespace (s : string) : string :=
  match s with
  | String c s' => if is_whitespace c then skip_whitespace s' else s
  | EmptyString => EmptyString
  end.

Definition hex_value (c : ascii) : option nat :=
  let n := nat_of_ascii c in
  if ((48 <=? n) && (n <=? 57))%nat then Some (n - 48)
  else if ((97 <=? n) && (n <=? 102))%nat then Some (n - 87)
  else if ((65 <=? n) && (n <=? 70))%nat then Some (n - 55)
  else None.

(** [_decode_uXXXX] *)
Definition decode_uXXXX (a b c d : ascii) : option nat :=
  match hex_value a, hex_value b, hex_value c, hex_value d with
  | Some x3, Some x2, Some x1, Some x0 =>
      Some (((x3 * 16 + x2) * 16 + x1) * 16 + x0)
  | _, _, _, _ => None
  end.

(** The [BACKSLASH] table. *)
Definition unescape (esc : ascii) : option ascii :=
  if Ascii.eqb esc quote then Some quote
  else if Ascii.eqb esc backslash then Some backslash
  else if Ascii.eqb esc "/" then Some "/"%char
  else if Ascii.eqb esc "b" then Some "008"%char
  else if Ascii.eqb esc "f" then Some "012"%char
  else if Ascii.eqb esc "n" then Some "010"%char
  else if Ascii.eqb esc "r" then Some "013"%char
  else if Ascii.eqb esc "t" then Some "009"%char
  else None.

Definition cons_char (c : ascii) (r : option (string * string))
    : option (string * string) :=
  match r with
  | Some (content, rest) => Some (String c content, rest)
  | None => None
  end.

(** [py_scanstring(s, end)] in strict mode, from just after the opening
    quote: the decoded string and the text after the closing quote. *)
Fixpoint scanstring (s : string) : option (string * string) :=
  match s with
  | EmptyString => None
  | String c s' =>
      if Ascii.eqb c quote then Some (EmptyString, s')
      else if Ascii.eqb c backslash then
        match s' with
        | EmptyString => None
        | String esc s'' =>
            if Ascii.eqb esc "u" then
              match s'' with
              | String h3 (String h2 (String h1 (String h0 s3))) =>
                  match decode_uXXXX h3 h2 h1 h0 with
                  | Some uni =>
                      if (uni <? 128)%nat
                      then cons_char (ascii_of_nat uni) (scanstring s3)
                      else None
                  | None => None
                  end
              | _ => None
              end
            else
              match unescape esc with
              | Some char => cons_char char (scanstring s'')
              | None => None
              end
        end
      else if (nat_of_ascii c <? 32)%nat then None
      else cons_char c (scanstring s')
  end.

(** [scan_once] and the loop of [JSONObject].  The recursion follows the
    text, so it is bounded by a [fuel] that [loads] takes from the length
    of the document. *)
Fixpoint scan_once (fuel : nat) (s : string) {struct fuel}
    : option (value * string) :=
  match fuel with
  | 0 => None
  | S fuel' =>
      match s with
      | EmptyString => None
      | String nextchar s' =>
          if Ascii.eqb nextchar quote then
            match scanstring s' with
            | Some (content, rest) => Some (VStr content, rest)
            | None => None
            end
          else if Ascii.eqb nextchar "{" then
            match skip_whitespace s' with
            | String c rest =>
                if Ascii.eqb c "}" then Some (VDict [], rest)
                else if Ascii.eqb c quote then
                  match JSONObject_pairs fuel' rest [] with
                  | Some (pairs, rest') =>
                      Some (VDict (dict_of_pairs pairs), rest')
                  | None => None
                  end
                else None
            | EmptyString => None
            end
          else None
      end
  end

(** The [while True] loop of [JSONObject], entered just after the
    opening quote of a key. *)
with JSONObject_pairs (fuel : nat) (s : string)
    (pairs : list (string * value)) {struct fuel}
    : option (list (string * value) * string) :=
  match fuel with
  | 0 => None
  | S fuel' =>
      match scanstring s with
      | None => None
      | Some (key, rest) =>
          match skip_whitespace rest with
          | String c1 rest1 =>
              if Ascii.eqb c1 ":" then
                match scan_once fuel' (skip_whitespace rest1) with
                | None => None
                | Some (v, rest2) =>
                    let pairs := (pairs ++ [(key, v)])%list in
                    match skip_whitespace rest2 with
                    | String c3 rest3 =>
                        if Ascii.eqb c3 "}" then Some (pairs, rest3)
                        else if Ascii.eqb c3 "," then
                          match skip_whitespace rest3 with
                          | String c4 rest4 =>
                              if Ascii.eqb c4 quote
                              then JSONObject_pairs fuel' rest4 pairs
                              else None
                          | EmptyString => None
                          end
                        else None
                    | EmptyString => None
                    end
                end
              else None
          | EmptyString => None
          end
      end
  end.

(** [json.loads(s)]: one value, white space around it, nothing else. *)
Definition loads (s : string) : option value :=
  match scan_once (String.length s) (skip_whitespace s) with
  | Some (obj, rest) =>
      match skip_whitespace rest with
      | EmptyString => Some obj
      | String _ _ => None
      end
  | None => None
  end.

(** [json.load(f)] on a file holding [text], opened with
    [encoding='utf-8']: the text is decoded, then parsed. *)
Definition json_load (text : string) : option value :=
  if valid_utf8 text then loads text else None.

(** ** The driver *)

(** [args = parser.parse_args()]: the parsed command line. *)
Record Namespace : Type := {
  path : string;
  output : string;
  ignore : list string
}.

(** The environment of a run, fixed while it lasts: what each path
    string refers to ([None]: nothing there), [os.path.abspath], and the
    exception, if any, that [open(file, 'w')] raises. *)
Record system : Type := {
  lookup : string -> option node;
  abspath : string -> string;
  open_error : string -> option exception
}.

(** The observable effects of a run, in order: a line on the standard
    output, a file created or emptied and left with [text], and a file
    created or emptied and left with an unfinished text.  The standard
    output belongs to the environment, which also sets its encoding; it
    is taken to accept every line. *)
Inductive event : Type :=
| Print (line : string)
| Write (file : string) (text : string)
| Partial (file : string).

(** Computations of the driver: they extend the trace of effects and
    return or raise. *)
Definition IO (A : Type) : Type := list event -> fallible A * list event.

Definition ret {A : Type} (a : A) : IO A := fun t => (Ok a, t).

Definition seq {A B : Type} (m : IO A) (k : A -> IO B) : IO B :=
  fun t =>
    match m t with
    | (Ok a, t') => k a t'
    | (Raise e, t') => (Raise e, t')
    end.

Definition lift {A : Type} (m : fallible A) : IO A := fun t => (m, t).

Definition print (line : string) : IO unit :=
  fun t => (Ok tt, (t ++ [Print line])%list).

(** [with open(file, 'w', encoding='utf-8') as f:
      json.dump(obj, f, indent=2, ensure_ascii=False)]:
    [open] may raise; [json.dump] writes the chunks of the text one
    after the other, and the write of a chunk that cannot be encoded
    raises. *)
Definition json_dump_file (sys : system) (file : string) (obj : value)
    : IO unit :=
  fun t =>
    match open_error sys file with
    | Some e => (Raise e, t)
    | None =>
        if encodable obj then (Ok tt, (t ++ [Write file (dumps obj)])%list)
        else (Raise UnicodeEncodeError, (t ++ [Partial file])%list)
    end.

Declare Scope io_scope.
Delimit Scope io_scope with io.
Notation "x <-- m ;; k" := (seq m (fun x => k))
  (at level 61, m at next level, right associativity) : io_scope.
Notation "m ;;; k" := (seq m (fun _ => k))
  (at level 61, right associativity) : io_scope.

(** [os.path.exists]: [os.stat] succeeds. *)
Definition os_path_exists (sys : system) (p : string) : bool :=
  match lookup sys p with
  | Some File => true
  | Some (Dir _ _) => true
  | Some (NoStat _) => false
  | None => false
  end.

(** [os.path.isdir] *)
Definition os_path_isdir (sys : system) (p : string) : bool :=
  match lookup sys p with
  | Some (Dir _ _) => true
  | _ => false
  end.

Fixpoint has_sep (p : string) : bool :=
  match p with
  | EmptyString => false
  | String c p' => Ascii.eqb c "/" || has_sep p'
  end.

(** [os.path.basename] of [posixpath]: [p[p.rfind('/') + 1:]]. *)
Fixpoint basename (p : string) : string :=
  match p with
  | EmptyString => EmptyString
  | String c p' =>
      if has_sep p' then basename p'
      else if Ascii.eqb c "/" then p'
      else p
  end.

(** [main()], after [parse_args]. *)
Definition main (sys : system) (args : Namespace) : IO unit :=
  let start_path := path args in
  let output_file := output args in
  let ignore_folders := ignore args in
  if negb (os_path_exists sys start_path) then
    print ("Error: Path '" ++ start_path ++ "' does not exist.")
  else if negb (os_path_isdir sys start_path) then
    print ("Error: Path '" ++ start_path ++ "' is not a directory.")
  else
    (print ("Building folder hierarchy from '" ++ start_path ++ "'...") ;;;
     (match ignore_folders with
      | [] => ret tt
      | _ :: _ =>
          print ("Ignoring folders: " ++ String.concat ", " ignore_folders)
      end) ;;;
     root_node <-- lift (get_folder_hierarchy_at (lookup sys) start_path
                           (Some ignore_folders)) ;;
     let folder_hierarchy :=
       VDict [(basename (abspath sys start_path), root_node)] in
     json_dump_file sys output_file folder_hierarchy ;;;
     print ("Folder hierarchy saved to '" ++ output_file ++ "'"))%io.

(** A run from the empty trace. *)
Definition run (sys : system) (args : Namespace)
    : fallible unit * list event :=
  main sys args [].

(** ** Vocabulary of the properties *)

(** Every key of a value, at every nesting level. *)
Fixpoint all_keys (v : value) : list string :=
  match v with
  | VStr _ => []
  | VDict items => flat_map (fun kv => fst kv :: all_keys (snd kv)) items
  end.

(** Every string of a value: its keys and its string leaves, at all
    levels.  In a hierarchy these are the directory names, the mark
    ["error"] and the failure descriptions. *)
Fixpoint strings (v : value) : list string :=
  match v with
  | VStr s => [s]
  | VDict items => flat_map (fun kv => fst kv :: strings (snd kv)) items
  end.

(** The keys that open a level of the hierarchy: those whose value is a
    dictionary.  The key of a sentinel has a string for its value. *)
Fixpoint dir_keys (v : value) : list string :=
  match v with
  | VStr _ => []
  | VDict items =>
      flat_map (fun kv =>
                  match snd kv with
                  | VDict _ => fst kv :: dir_keys (snd kv)
                  | VStr _ => []
                  end) items
  end.

(** The value found in [v] by following the keys of [p]. *)
Fixpoint subvalue (p : list string) (v : value) : option value :=
  match p with
  | [] => Some v
  | k :: p' =>
      match v with
      | VDict d =>
          match dict_get k d with
          | Some v' => subvalue p' v'
          | None => None
          end
      | VStr _ => None
      end
  end.

(** The entry found in the tree by following the names of [p], as the
    file system has it, whether or not the program can see it. *)
Inductive entry_at : node -> list string -> node -> Prop :=
| entry_here : forall n, entry_at n [] n
| entry_below : forall err entries name item p n,
    In (name, item) entries ->
    entry_at item p n ->
    entry_at (Dir err entries) (name :: p) n.

(** The item that the loop leaves under [name]: the last one of that
    name (a real listing has one at most). *)
Fixpoint last_item (name : string) (items : list (string * node))
    : option node :=
  match items with
  | [] => None
  | item :: items' =>
      match last_item name items' with
      | Some x => Some x
      | None => if String.eqb name (fst item) then Some (snd item) else None
      end
  end.

(** The directories that the traversal visits, with their position:
    the root, and the items of every visited directory whose listing
    succeeds. *)
Inductive visited (ig : list string) : node -> list string -> node -> Prop :=
| visited_root : forall n, visited ig n [] n
| visited_item : forall path_obj items name item p n,
    list_items path_obj ig = Ok items ->
    last_item name items = Some item ->
    visited ig item p n ->
    visited ig path_obj (name :: p) n.

(** Dictionaries as Python has them: no key twice, at any level. *)
Fixpoint unique_keys (v : value) : Prop :=
  match v with
  | VStr _ => True
  | VDict items =>
      NoDup (map fst items)
      /\ (fix all (l : list (string * value)) : Prop :=
            match l with
            | [] => True
            | kv :: l' => unique_keys (snd kv) /\ all l'
            end) items
  end.

(** The number of values and keys of a value: a bound on the steps of
    the reader. *)
Fixpoint weight (v : value) : nat :=
  match v with
  | VStr _ => 1
  | VDict items => S (list_sum (map (fun kv => S (weight (snd kv))) items))
  end.

(** The bytes of [s] are well-formed UTF-8. *)
Definition well_formed (s : string) : Prop := utf8_run Start s = Some Start.

(** One item of a written dictionary and what separates two items. *)
Definition encode_item (level : nat) (kv : string * value) : string :=
  encode_basestring (fst kv) ++ ": " ++ iterencode (snd kv) level.

Definition item_separator (level : nat) : string :=
  "," ++ newline_indent level.

(** The line that announces the ignored names, when there are any. *)
Definition ignoring_line (ignore_folders : list string) : list event :=
  match ignore_folders with
  | [] => []
  | _ :: _ =>
      [Print ("Ignoring folders: " ++ String.concat ", " ignore_folders)]
  end.

Definition is_print (e : event) : Prop :=
  match e with
  | Print _ => True
  | Write _ _ | Partial _ => False
  end.

(** The value that the builder returns (it always returns one, see
    [get_folder_hierarchy_returns]). *)
Definition hierarchy (ig : list string) (path : node) : value :=
  match get_folder_hierarchy path (Some ig) with
  | Ok v => v
  | Raise _ => VStr EmptyString
  end.

(** ** A sample tree

    A root with a readable directory [docs], a directory [vault] whose
    listing is refused, a directory named [error], a hidden directory
    and a file. *)
Definition vault : node :=
  Dir (Some (PermissionError "[Errno 13] Permission denied: 'vault'"))
    [("secret", Dir None [])].

Definition sample_tree : node :=
  Dir None
    [("docs", Dir None [("drafts", Dir None []); ("error", Dir None [])]);
     ("vault", vault);
     ("error", Dir None [("log", Dir None [])]);
     (".git", Dir None [("objects", Dir None [])]);
     ("notes.txt", File)].

(** ** A sample run

    The tree of the scenario of the specification, in a system where
    the working directory is [/home/user] and every file can be
    written. *)
Definition project_tree : node :=
  Dir None
    [("src", Dir None [("utils", Dir None []); (".cache", Dir None [])]);
     ("node_modules", Dir None [("lodash", Dir None [])]);
     ("README.md", File)].

(** A directory whose name is the single byte 0xE9, the letter e with
    an acute accent in Latin-1: not UTF-8. *)
Definition music_tree : node :=
  Dir None [(String "233" EmptyString, Dir None [])].

Definition sample_system : system := {|
  lookup := fun p =>
    if String.eqb p "project" then Some project_tree
    else if String.eqb p "project/README.md" then Some File
    else if String.eqb p "sample" then Some sample_tree
    else if String.eqb p "music" then Some music_tree
    else None;
  abspath := fun p => "/home/user/" ++ p;
  open_error := fun _ => None
|}.

(** A tree whose names are Japanese and French text. *)
Definition unicode_tree : node :=
  Dir None [("日本語", Dir None [("données", Dir None [])])].

Definition sample_args (start_path : string) (ignore_folders : list string)
    : Namespace := {|
  path := start_path;
  output := "folder_hierarchy.json";
  ignore := ignore_folders
|}.

(** ** Vocabulary of the further properties *)

Definition is_dict (v : value) : bool :=
  match v with
  | VDict _ => true
  | VStr _ => false
  end.

(** A value without the sub-dictionaries whose key is one of [names],
    at every level.  A key whose value is a string stays. *)
Fixpoint prune (names : list string) (v : value) : value :=
  match v with
  | VStr s => VStr s
  | VDict items =>
      VDict (flat_map
               (fun kv =>
                  if contains names (fst kv) && is_dict (snd kv) then []
                  else [(fst kv, prune names (snd kv))]) items)
  end.

(** The file that an effect touches, if any. *)
Definition touched (e : event) : option string :=
  match e with
  | Print _ => None
  | Write file _ => Some file
  | Partial file => Some file
  end.

(** A directory with two entries that cannot be examined, one of them
    hidden. *)
Definition guarded_tree : node :=
  Dir None
    [("open", Dir None [("inner", Dir None [])]);
     (".hidden", NoStat (PermissionError "[Errno 13] Permission denied"));
     ("locked", NoStat (PermissionError "[Errno 13] Permission denied"))].

(** A system where the output cannot be opened. *)
Definition readonly_system : system := {|
  lookup := lookup sample_system;
  abspath := abspath sample_system;
  open_error := fun _ =>
    Some (PermissionError "[Errno 13] Permission denied")
|}.

(** A directory whose listing is refused and which holds a file named
    [error]. *)
Definition locked_with_error_file : node :=
  Dir (Some (PermissionError "[Errno 13] Permission denied: 'locked'"))
    [("error", File)].

(** * Properties *)

(** ** Induction over nested values and trees *)

Lemma value_nested_ind (P : value -> Prop) :
  (forall s, P (VStr s)) ->
  (forall items, Forall (fun kv => P (snd kv)) items -> P (VDict items)) ->
  forall v, P v.
Proof.
  intros Hs Hd.
  fix IH 1.
  intros [s | items].
  - apply Hs.
  - apply Hd.
    induction items as [| kv items IHitems]; constructor.
    + apply IH.
    + exact IHitems.
Qed.

Lemma node_nested_ind (P : node -> Prop) :
  P File ->
  (forall e, P (NoStat e)) ->
  (forall err entries,
      Forall (fun item => P (snd item)) entries -> P (Dir err entries)) ->
  forall n, P n.
Proof.
  intros Hf Hn Hd.
  fix IH 1.
  intros [| err entries | e].
  - exact Hf.
  - apply Hd.
    induction entries as [| item entries IHentries]; constructor.
    + apply IH.
    + exact IHentries.
  - apply Hn.
Qed.

(** ** The recursive function is its body *)

Lemma handler_total (e : exception) :
  exists msg, handler e = Ok (error_dict msg).
Proof.
  destruct e; simpl; eauto.
Qed.

Lemma loop_entries_foldM self ig entries :
  forall items result,
    filterM (keep ig) entries = Ok items ->
    loop_entries self ig entries result
    = try_except
        (r <- foldM (fun result item =>
                       sub <- self (snd item) ;;
                       Ok (dict_set (fst item) sub result)) items result ;;
         Ok (VDict r))
        handler.
Proof.
  induction entries as [| item entries IH]; intros items result H; simpl in *.
  - injection H as <-. reflexivity.
  - destruct (keep ig item) as [b | e]; simpl in H; [| discriminate].
    destruct (filterM (keep ig) entries) as [rest | e]; simpl in H;
      [| discriminate].
    injection H as <-.
    destruct b; simpl.
    + destruct (self (snd item)) as [sub | e]; simpl.
      * apply IH. reflexivity.
      * reflexivity.
    + apply IH. reflexivity.
Qed.

Lemma get_folder_hierarchy_unfold path ignore_folders :
  get_folder_hierarchy path ignore_folders
  = get_folder_hierarchy_body get_folder_hierarchy path ignore_folders.
Proof.
  unfold get_folder_hierarchy_body, list_items.
  destruct path as [| [e |] entries | e]; simpl; try reflexivity.
  destruct (filterM (keep (default_ignore ignore_folders)) entries)
    as [items | e] eqn:Hitems; simpl.
  - rewrite (loop_entries_foldM _ _ _ [] Hitems). reflexivity.
  - reflexivity.
Qed.

(** ** The builder always returns *)

Lemma loop_entries_returns self ig entries :
  Forall (fun item => exists d, self (snd item) = Ok (VDict d)) entries ->
  forall result, exists d, loop_entries self ig entries result = Ok (VDict d).
Proof.
  induction 1 as [| item entries [d Hd] _ IH]; intros result; simpl.
  - eauto.
  - destruct (keep ig item) as [[|] | e]; auto.
    rewrite Hd. apply IH.
Qed.

Lemma get_folder_hierarchy_returns path :
  forall ignore_folders,
    exists d, get_folder_hierarchy path ignore_folders = Ok (VDict d).
Proof.
  induction path as [| e | err entries IH] using node_nested_ind;
    intros ignore_folders.
  - simpl. unfold error_dict. eauto.
  - simpl. destruct (handler_total e) as [msg ->]. unfold error_dict. eauto.
  - destruct err as [e |]; simpl.
    + destruct (handler_total e) as [msg ->]. unfold error_dict. eauto.
    + destruct (filterM _ entries) as [items | e].
      * apply loop_entries_returns.
        eapply Forall_impl; [| exact IH]. intros item H. apply H.
      * destruct (handler_total e) as [msg ->]. unfold error_dict. eauto.
Qed.

Lemma get_folder_hierarchy_default path ignore_folders :
  get_folder_hierarchy path ignore_folders
  = get_folder_hierarchy path (Some (default_ignore ignore_folders)).
Proof.
  destruct path; reflexivity.
Qed.

Lemma get_folder_hierarchy_hierarchy path ignore_folders :
  get_folder_hierarchy path ignore_folders
  = Ok (hierarchy (default_ignore ignore_folders) path).
Proof.
  rewrite get_folder_hierarchy_default. unfold hierarchy.
  destruct (get_folder_hierarchy_returns path
              (Some (default_ignore ignore_folders))) as [d ->].
  reflexivity.
Qed.

Lemma foldM_hierarchy ig items :
  forall result,
    foldM (fun result item =>
             sub <- get_folder_hierarchy (snd item) (Some ig) ;;
             Ok (dict_set (fst item) sub result)) items result
    = Ok (fold_left (fun d item =>
                       dict_set (fst item) (hierarchy ig (snd item)) d)
            items result).
Proof.
  induction items as [| item items IH]; intros result; simpl.
  - reflexivity.
  - rewrite get_folder_hierarchy_hierarchy. simpl. apply IH.
Qed.

(** The two equations that the remaining proofs use. *)
Lemma hierarchy_items ig path items :
  list_items path ig = Ok items ->
  hierarchy ig path
  = VDict (fold_left (fun d item =>
                        dict_set (fst item) (hierarchy ig (snd item)) d)
             items []).
Proof.
  intros H. unfold hierarchy at 1.
  rewrite get_folder_hierarchy_unfold. unfold get_folder_hierarchy_body.
  simpl. rewrite H. simpl. rewrite foldM_hierarchy. reflexivity.
Qed.

Lemma hierarchy_raise ig path e :
  list_items path ig = Raise e ->
  handler e = Ok (hierarchy ig path).
Proof.
  intros H. unfold hierarchy.
  rewrite get_folder_hierarchy_unfold. unfold get_folder_hierarchy_body.
  simpl. rewrite H. simpl.
  destruct (handler_total e) as [msg ->]. reflexivity.
Qed.

Lemma list_items_cases ig path :
  (exists items, list_items path ig = Ok items)
  \/ (exists e, list_items path ig = Raise e).
Proof.
  destruct (list_items path ig); eauto.
Qed.

(** ** Dictionaries *)

Lemma dict_set_In k v d k' v' :
  In (k', v') (dict_set k v d) -> (k' = k /\ v' = v) \/ In (k', v') d.
Proof.
  induction d as [| [k0 v0] d IH]; simpl.
  - intros [H | []]. injection H as <- <-. auto.
  - destruct (String.eqb k k0) eqn:E.
    + apply String.eqb_eq in E. subst k0.
      intros [H | H]; [injection H as <- <-; auto | auto].
    + intros [H | H]; [auto |].
      destruct (IH H) as [? | ?]; auto.
Qed.

Lemma dict_get_set k k' v d :
  dict_get k (dict_set k' v d)
  = if String.eqb k k' then Some v else dict_get k d.
Proof.
  induction d as [| [k0 v0] d IH]; simpl.
  - reflexivity.
  - destruct (String.eqb k' k0) eqn:E; simpl.
    + apply String.eqb_eq in E. subst k0.
      destruct (String.eqb k k'); reflexivity.
    + rewrite IH.
      destruct (String.eqb k k0) eqn:E0; [| reflexivity].
      apply String.eqb_eq in E0. subst k0.
      rewrite String.eqb_sym, E. reflexivity.
Qed.

Lemma dict_get_In k d v :
  dict_get k d = Some v -> In (k, v) d.
Proof.
  induction d as [| [k0 v0] d IH]; simpl; [discriminate |].
  destruct (String.eqb k k0) eqn:E.
  - apply String.eqb_eq in E. subst k0. intros H. injection H as <-. auto.
  - auto.
Qed.

Section Loop.

Variables (A : Type) (f : A -> value).

Let step (d : dict) (item : string * A) : dict :=
  dict_set (fst item) (f (snd item)) d.

Lemma fold_dict_set_In items : forall acc k v,
  In (k, v) (fold_left step items acc) ->
  In (k, v) acc
  \/ exists item, In item items /\ k = fst item /\ v = f (snd item).
Proof.
  induction items as [| item items IH]; intros acc k v H; simpl in *.
  - auto.
  - destruct (IH _ _ _ H) as [Hacc | (x & Hx & -> & ->)].
    + apply dict_set_In in Hacc. destruct Hacc as [[-> ->] | Hacc].
      * right. exists item. auto.
      * auto.
    + right. exists x. auto.
Qed.

End Loop.

Lemma dict_get_fold ig items : forall acc k,
  dict_get k
    (fold_left (fun d item => dict_set (fst item) (hierarchy ig (snd item)) d)
       items acc)
  = match last_item k items with
    | Some x => Some (hierarchy ig x)
    | None => dict_get k acc
    end.
Proof.
  induction items as [| item items IH]; intros acc k; simpl.
  - reflexivity.
  - rewrite IH, dict_get_set.
    destruct (last_item k items); [reflexivity |].
    destruct (String.eqb k (fst item)); reflexivity.
Qed.

(** ** What the comprehension keeps *)

Lemma filterM_In (A : Type) (cond : A -> fallible bool) l : forall l' x,
  filterM cond l = Ok l' -> In x l' -> In x l /\ cond x = Ok true.
Proof.
  induction l as [| a l IH]; intros l' x H Hx; simpl in H.
  - injection H as <-. destruct Hx.
  - destruct (cond a) as [b | e] eqn:Ea; simpl in H; [| discriminate].
    destruct (filterM cond l) as [rest | e]; simpl in H; [| discriminate].
    injection H as <-.
    destruct b.
    + destruct Hx as [<- | Hx]; [simpl; auto |].
      destruct (IH _ _ eq_refl Hx). simpl; auto.
    + destruct (IH _ _ eq_refl Hx). simpl; auto.
Qed.

Lemma keep_true ig item :
  keep ig item = Ok true ->
  startswith_dot (fst item) = false
  /\ (exists err entries, snd item = Dir err entries)
  /\ contains ig (fst item) = false.
Proof.
  unfold keep.
  destruct (startswith_dot (fst item)); simpl; [discriminate |].
  destruct (snd item) as [| err entries | e]; simpl; try discriminate.
  destruct (contains ig (fst item)); simpl; [discriminate |].
  eauto.
Qed.

Lemma list_items_In ig path items item :
  list_items path ig = Ok items ->
  In item items ->
  exists entries,
    path = Dir None entries /\ In item entries /\ keep ig item = Ok true.
Proof.
  unfold list_items.
  destruct path as [| [e |] entries | e]; simpl; try discriminate.
  intros H Hin. destruct (@filterM_In _ _ _ _ _ H Hin). eauto.
Qed.

(** Every pair of the dictionary that the builder returns for [path] is
    the sentinel of a failed listing or a kept entry of [path] with the
    builder's result for it. *)
Lemma hierarchy_pairs ig path : exists d,
  hierarchy ig path = VDict d
  /\ forall k v, In (k, v) d ->
       (k = "error" /\ exists msg, v = VStr msg)
       \/ (exists entries item,
             path = Dir None entries /\ In (k, item) entries
             /\ keep ig (k, item) = Ok true /\ v = hierarchy ig item).
Proof.
  destruct (list_items_cases ig path) as [[items H] | [e H]].
  - eexists. split; [apply (hierarchy_items _ _ H) |].
    intros k v Hin. right.
    apply fold_dict_set_In in Hin. destruct Hin as [[] | (item & Hi & -> & ->)].
    destruct (list_items_In _ _ _ H Hi) as (entries & -> & Hentries & Hkeep).
    exists entries, (snd item). destruct item; simpl in *. auto.
  - apply hierarchy_raise in H.
    destruct (handler_total e) as [msg Hmsg].
    rewrite Hmsg in H. injection H as H.
    exists [("error", VStr msg)]. split; [symmetry; exact H |].
    intros k v [Hkv | []]. injection Hkv as <- <-. left. eauto.
Qed.

Lemma in_all_keys k items :
  In k (all_keys (VDict items))
  <-> exists kv, In kv items /\ (k = fst kv \/ In k (all_keys (snd kv))).
Proof.
  simpl. rewrite in_flat_map. split.
  - intros (kv & Hkv & [<- | H]); eauto.
  - intros (kv & Hkv & [-> | H]); exists kv; simpl; auto.
Qed.

(** Every key of the hierarchy is the mark of a sentinel or the name of
    a kept directory. *)
Lemma hierarchy_keys ig path :
  forall k, In k (all_keys (hierarchy ig path)) ->
    k = "error" \/ (startswith_dot k = false /\ contains ig k = false).
Proof.
  induction path as [| e | err entries IH] using node_nested_ind; intros k;
    match goal with
    | |- context [hierarchy ig ?n] =>
        destruct (hierarchy_pairs ig n) as (d & -> & Hd)
    end;
    rewrite in_all_keys; intros ([k0 v0] & Hin & Hk); simpl in Hk;
    destruct (Hd _ _ Hin)
      as [[-> [msg ->]] | (entries' & item & Heq & Hentries & Hkeep & ->)];
    try (destruct Hk as [-> | []]; auto; fail);
    try discriminate.
  injection Heq as _ <-.
  destruct Hk as [-> | Hk].
  - right. apply keep_true in Hkeep. simpl in Hkeep. tauto.
  - rewrite Forall_forall in IH. apply (IH _ Hentries). exact Hk.
Qed.

Lemma contains_In ig name : contains ig name = false -> ~ In name ig.
Proof.
  unfold contains. intros H Hin.
  assert (existsb (String.eqb name) ig = true) as E.
  { apply existsb_exists. exists name. split; [exact Hin |].
    apply String.eqb_refl. }
  congruence.
Qed.

Lemma in_dir_keys k items :
  In k (dir_keys (VDict items))
  <-> exists k0 d, In (k0, VDict d) items
                   /\ (k = k0 \/ In k (dir_keys (VDict d))).
Proof.
  cbn [dir_keys]. rewrite in_flat_map. split.
  - intros ([k0 [s | d]] & Hkv & H); cbn [snd fst] in H; [destruct H |].
    exists k0, d. destruct H as [<- | H]; auto.
  - intros (k0 & d & Hkv & H). exists (k0, VDict d). split; [exact Hkv |].
    cbn [snd fst]. destruct H as [-> | H]; [left | right]; auto.
Qed.

(** A key that opens a level is the name of a kept directory. *)
Lemma hierarchy_dir_keys ig path :
  forall k, In k (dir_keys (hierarchy ig path)) ->
    startswith_dot k = false /\ contains ig k = false.
Proof.
  induction path as [| e | err entries IH] using node_nested_ind; intros k;
    match goal with
    | |- context [hierarchy ig ?n] =>
        destruct (hierarchy_pairs ig n) as (d & -> & Hd)
    end;
    rewrite in_dir_keys; intros (k0 & d0 & Hin & Hk);
    destruct (Hd _ _ Hin)
      as [[-> [msg Hmsg]] | (entries' & item & Heq & Hentries & Hkeep & Hv)];
    try discriminate.
  injection Heq as _ <-.
  destruct Hk as [-> | Hk].
  - apply keep_true in Hkeep. simpl in Hkeep. tauto.
  - rewrite Forall_forall in IH. apply (IH _ Hentries).
    simpl snd. rewrite <- Hv. exact Hk.
Qed.

(** ** Positions *)

Lemma visited_subvalue ig root p d :
  visited ig root p d ->
  subvalue p (hierarchy ig root) = Some (hierarchy ig d).
Proof.
  induction 1 as [n | path_obj items name item p n Hitems Hlast _ IH].
  - reflexivity.
  - rewrite (hierarchy_items _ _ Hitems). simpl.
    rewrite dict_get_fold, Hlast. exact IH.
Qed.

Lemma subvalue_entry ig : forall p path x,
  subvalue p (hierarchy ig path) = Some x ->
  p = []
  \/ (last p EmptyString = "error" /\ exists msg, x = VStr msg)
  \/ (exists err entries,
        entry_at path p (Dir err entries)
        /\ x = hierarchy ig (Dir err entries)).
Proof.
  induction p as [| k p IH]; intros path x H; [auto |].
  right.
  destruct (hierarchy_pairs ig path) as (d & Hd & Hpairs).
  rewrite Hd in H. simpl in H.
  destruct (dict_get k d) as [v |] eqn:Hget; [| discriminate].
  apply dict_get_In in Hget.
  destruct (Hpairs _ _ Hget)
    as [[-> [msg ->]] | (entries & item & -> & Hentries & Hkeep & ->)].
  - destruct p; simpl in H; [| discriminate].
    injection H as <-. left. eauto.
  - destruct (IH _ _ H) as [-> | [[Hlast Hx] | (err & es & Hat & ->)]].
    + simpl in H. injection H as <-. right.
      apply keep_true in Hkeep. destruct Hkeep as (_ & (err & es & Hdir) & _).
      simpl in Hdir. subst item. exists err, es. split; [| reflexivity].
      eapply entry_below; [exact Hentries | apply entry_here].
    + left. split; [| exact Hx].
      destruct p; [discriminate | exact Hlast].
    + right. exists err, es. split; [| reflexivity].
      eapply entry_below; eassumption.
Qed.

Lemma subvalue_app p q v :
  subvalue (p ++ q) v
  = match subvalue p v with
    | Some v' => subvalue q v'
    | None => None
    end.
Proof.
  revert v. induction p as [| k p IH]; intros v; simpl.
  - reflexivity.
  - destruct v as [s | d]; [reflexivity |].
    destruct (dict_get k d); [apply IH | reflexivity].
Qed.

Lemma last_item_In name items item :
  last_item name items = Some item -> In (name, item) items.
Proof.
  induction items as [| [n x] items IH]; simpl; [discriminate |].
  destruct (last_item name items).
  - intros H. injection H as <-. auto.
  - destruct (String.eqb name n) eqn:E; [| discriminate].
    apply String.eqb_eq in E. subst n.
    intros H. injection H as <-. auto.
Qed.

Lemma distinct_names_entry (A : Type) (l : list (string * A)) k a b :
  NoDup (map fst l) -> In (k, a) l -> In (k, b) l -> a = b.
Proof.
  induction l as [| [k0 x] l IH]; simpl; intros Hnodup Ha Hb; [destruct Ha |].
  inversion Hnodup as [| ? ? Hnotin Hrest]; subst.
  destruct Ha as [Ha | Ha], Hb as [Hb | Hb].
  - congruence.
  - injection Ha as -> ->. exfalso. apply Hnotin.
    apply (in_map fst) in Hb. exact Hb.
  - injection Hb as -> ->. exfalso. apply Hnotin.
    apply (in_map fst) in Ha. exact Ha.
  - apply IH; assumption.
Qed.

(** ** Properties of the builder *)

(** C3.  The builder never lets an exception reach its caller.  Its
    body returns a dictionary whatever the recursive calls do, even if
    one of them raised: every failure is caught where it occurs.  And
    the function returns: the sentinel of the node when the listing of
    [path] raises, a dictionary otherwise. *)
Theorem get_folder_hierarchy_never_raises path ignore_folders :
  (forall self, exists d,
      get_folder_hierarchy_body self path ignore_folders = Ok (VDict d))
  /\ match list_items path (default_ignore ignore_folders) with
     | Raise e =>
         exists msg,
           get_folder_hierarchy path ignore_folders = Ok (error_dict msg)
     | Ok items =>
         exists d, get_folder_hierarchy path ignore_folders = Ok (VDict d)
     end.
Proof.
  split.
  - intros self. unfold get_folder_hierarchy_body. cbv zeta.
    destruct (list_items path (default_ignore ignore_folders))
      as [items | e]; cbn [bind try_except].
    + match goal with
      | |- context [foldM ?step items ?r] =>
          destruct (foldM step items r) as [result | e]
      end; cbn [bind try_except].
      * eauto.
      * destruct (handler_total e) as [msg ->]. unfold error_dict. eauto.
    + destruct (handler_total e) as [msg ->]. unfold error_dict. eauto.
  - rewrite get_folder_hierarchy_hierarchy.
    destruct (list_items path (default_ignore ignore_folders)) as [items | e]
      eqn:H.
    + rewrite (hierarchy_items _ _ H). eauto.
    + apply hierarchy_raise in H. destruct (handler_total e) as [msg Hmsg].
      exists msg. congruence.
Qed.

(** C4.  No key of the hierarchy, at any level, starts with a dot,
    whatever the ignore list is. *)
Theorem hidden_entries_never_keys path ignore_folders :
  exists v,
    get_folder_hierarchy path ignore_folders = Ok v
    /\ Forall (fun k => startswith_dot k = false) (all_keys v).
Proof.
  eexists. split; [apply get_folder_hierarchy_hierarchy |].
  apply Forall_forall. intros k Hk.
  apply hierarchy_keys in Hk. destruct Hk as [-> | [H _]]; [reflexivity | exact H].
Qed.

(** C5, as stated, fails: with ["error"] in the ignore list the key
    ["error"] still appears, as the mark of the sentinel of [vault],
    while the directories named [error] are left out. *)
Lemma ignored_name_error_counterexample :
  get_folder_hierarchy sample_tree (Some ["error"])
  = Ok (VDict [("docs", VDict [("drafts", VDict [])]);
               ("vault", VDict [("error", VStr "Permission denied")])])
  /\ In "error" ["error"]
  /\ In "error"
       (all_keys
          (VDict [("docs", VDict [("drafts", VDict [])]);
                  ("vault", VDict [("error", VStr "Permission denied")])])).
Proof.
  split; [reflexivity |]. split; simpl; auto 10.
Qed.

(** C5, amended.  For every name of the ignore list, no key of that name
    opens a level of the hierarchy, at any depth; the only key that can
    bear an ignored name is the mark ["error"] of a sentinel, which does
    not depend on the ignore list. *)
Theorem ignored_names_never_directory_keys path ignore_folders name :
  In name (default_ignore ignore_folders) ->
  exists v,
    get_folder_hierarchy path ignore_folders = Ok v
    /\ ~ In name (dir_keys v)
    /\ (In name (all_keys v) -> name = "error").
Proof.
  intros Hin. eexists. split; [apply get_folder_hierarchy_hierarchy |]. split.
  - intros Hk. apply hierarchy_dir_keys in Hk.
    destruct Hk as [_ Hk]. apply contains_In in Hk. auto.
  - intros Hk. apply hierarchy_keys in Hk.
    destruct Hk as [-> | [_ Hk]]; [reflexivity |].
    apply contains_In in Hk. contradiction.
Qed.

Lemma ignored_names_never_directory_keys_witness :
  exists v,
    get_folder_hierarchy sample_tree (Some ["node_modules"; "error"]) = Ok v
    /\ ~ In "error" (dir_keys v)
    /\ (In "error" (all_keys v) -> "error" = "error").
Proof.
  apply (ignored_names_never_directory_keys sample_tree
           (Some ["node_modules"; "error"]) "error").
  simpl. auto.
Defined.

(** C10.  Leaving the ignore list out is the same as passing an empty
    one, for a tree and for a path of a file system. *)
Theorem ignore_none_is_empty_list :
  (forall path : node,
      get_folder_hierarchy path None = get_folder_hierarchy path (Some []))
  /\ (forall (lookup : string -> option node) (path : string),
        get_folder_hierarchy_at lookup path None
        = get_folder_hierarchy_at lookup path (Some [])).
Proof.
  split.
  - intros path. apply get_folder_hierarchy_default.
  - intros lookup path. unfold get_folder_hierarchy_at.
    destruct (lookup path); [apply get_folder_hierarchy_default | reflexivity].
Qed.

(** ** Reading back what was written *)

Lemma append_assoc (a b c : string) : (a ++ b) ++ c = a ++ (b ++ c).
Proof.
  induction a as [| x a IH]; simpl; [reflexivity | now rewrite IH].
Qed.

Lemma append_nil_r (a : string) : a ++ EmptyString = a.
Proof.
  induction a as [| x a IH]; simpl; [reflexivity | now rewrite IH].
Qed.

Lemma length_append (a b : string) :
  String.length (a ++ b) = String.length a + String.length b.
Proof.
  induction a as [| x a IH]; simpl; [reflexivity | now rewrite IH].
Qed.

(** One character: the reader undoes what the writer did. *)
Lemma scanstring_escape_char c tail :
  scanstring (escape_char c ++ tail) = cons_char c (scanstring tail).
Proof.
  destruct c as [[] [] [] [] [] [] [] []]; reflexivity.
Qed.

Lemma scanstring_escape s rest :
  scanstring (escape s ++ String quote rest) = Some (s, rest).
Proof.
  induction s as [| c s IH].
  - reflexivity.
  - cbn [escape]. rewrite append_assoc, scanstring_escape_char, IH.
    reflexivity.
Qed.

Lemma skip_whitespace_spaces n s :
  skip_whitespace (spaces n ++ s) = skip_whitespace s.
Proof.
  induction n as [| n IH]; simpl; auto.
Qed.

Lemma skip_whitespace_newline_indent n s :
  skip_whitespace (newline_indent n ++ s) = skip_whitespace s.
Proof.
  unfold newline_indent. cbn [append skip_whitespace].
  change (is_whitespace newline) with true. cbv iota.
  apply skip_whitespace_spaces.
Qed.

Lemma skip_whitespace_head c s :
  is_whitespace c = false -> skip_whitespace (String c s) = String c s.
Proof.
  intros H. simpl. now rewrite H.
Qed.

Lemma iterencode_dict kv items level :
  iterencode (VDict (kv :: items)) level
  = "{" ++ newline_indent (S level)
      ++ String.concat (item_separator (S level))
           (map (encode_item (S level)) (kv :: items))
      ++ newline_indent level ++ "}".
Proof.
  reflexivity.
Qed.

Lemma iterencode_head v level :
  exists c x, iterencode v level = String c x /\ is_whitespace c = false.
Proof.
  destruct v as [s | [| kv items]].
  - exists quote. eexists. split; reflexivity.
  - exists "{"%char. eexists. split; reflexivity.
  - rewrite iterencode_dict. exists "{"%char. eexists. split; reflexivity.
Qed.

Lemma unique_keys_dict items :
  unique_keys (VDict items)
  <-> NoDup (map fst items) /\ Forall (fun kv => unique_keys (snd kv)) items.
Proof.
  cbn [unique_keys].
  assert (forall l : list (string * value),
            (fix all (l : list (string * value)) : Prop :=
               match l with
               | [] => True
               | kv :: l' => unique_keys (snd kv) /\ all l'
               end) l
            <-> Forall (fun kv => unique_keys (snd kv)) l) as H.
  { induction l as [| kv l IH].
    - split; auto.
    - rewrite Forall_cons_iff, IH. reflexivity. }
  rewrite H. reflexivity.
Qed.

Lemma dict_set_fresh k v d :
  ~ In k (map fst d) -> dict_set k v d = (d ++ [(k, v)])%list.
Proof.
  induction d as [| [k0 v0] d IH]; simpl; intros H.
  - reflexivity.
  - destruct (String.eqb k k0) eqn:E.
    + apply String.eqb_eq in E. subst k0. tauto.
    + rewrite IH; tauto.
Qed.

Lemma dict_of_pairs_unique pairs : forall acc,
  NoDup (map fst (acc ++ pairs)%list) ->
  fold_left (fun d kv => dict_set (fst kv) (snd kv) d) pairs acc
  = (acc ++ pairs)%list.
Proof.
  induction pairs as [| [k v] pairs IH]; intros acc H; simpl.
  - now rewrite app_nil_r.
  - rewrite dict_set_fresh.
    + rewrite IH; rewrite <- app_assoc; [reflexivity | exact H].
    + rewrite map_app in H. simpl in H.
      apply NoDup_remove_2 in H. intros Hin. apply H.
      apply in_or_app. auto.
Qed.

(** One turn of the loop of [JSONObject]. *)
Lemma JSONObject_pairs_step fuel s pairs key rest rest1 v rest2 :
  scanstring s = Some (key, rest) ->
  skip_whitespace rest = String ":" rest1 ->
  scan_once fuel (skip_whitespace rest1) = Some (v, rest2) ->
  JSONObject_pairs (S fuel) s pairs
  = match skip_whitespace rest2 with
    | String c3 rest3 =>
        if Ascii.eqb c3 "}" then Some ((pairs ++ [(key, v)])%list, rest3)
        else if Ascii.eqb c3 "," then
          match skip_whitespace rest3 with
          | String c4 rest4 =>
              if Ascii.eqb c4 quote
              then JSONObject_pairs fuel rest4 (pairs ++ [(key, v)])%list
              else None
          | EmptyString => None
          end
        else None
    | EmptyString => None
    end.
Proof.
  intros H1 H2 H3. cbn [JSONObject_pairs]. rewrite H1, H2.
  change (Ascii.eqb ":" ":") with true. cbv iota. rewrite H3. reflexivity.
Qed.

Section RoundTrip.

(** What the induction over values provides for the values of a
    dictionary: the reader, with enough fuel, reads back a value written
    at any level, and leaves what follows it. *)
Let reads_back (v : value) : Prop :=
  forall level fuel rest,
    weight v <= fuel ->
    unique_keys v ->
    scan_once fuel (iterencode v level ++ rest) = Some (v, rest).

Lemma encode_item_quote level kv :
  encode_item level kv
  = String quote
      (escape (fst kv)
         ++ String quote (String ":" (String " " (iterencode (snd kv) level)))).
Proof.
  unfold encode_item, encode_basestring. cbn [append].
  rewrite append_assoc. reflexivity.
Qed.

Lemma concat_items_quote level sep items kv :
  exists tail,
    String.concat sep (map (encode_item level) (kv :: items))
    = String quote tail.
Proof.
  cbn [map String.concat]. rewrite encode_item_quote.
  destruct (map (encode_item level) items); cbn [append]; eauto.
Qed.

Lemma JSONObject_pairs_item fuel key v level after pairs :
  reads_back v ->
  weight v <= fuel ->
  unique_keys v ->
  JSONObject_pairs (S fuel)
    ((escape key
        ++ String quote (String ":" (String " " (iterencode v level))))
       ++ after)
    pairs
  = match skip_whitespace after with
    | String c3 rest3 =>
        if Ascii.eqb c3 "}" then Some ((pairs ++ [(key, v)])%list, rest3)
        else if Ascii.eqb c3 "," then
          match skip_whitespace rest3 with
          | String c4 rest4 =>
              if Ascii.eqb c4 quote
              then JSONObject_pairs fuel rest4 (pairs ++ [(key, v)])%list
              else None
          | EmptyString => None
          end
        else None
    | EmptyString => None
    end.
Proof.
  intros Hv Hfuel Uv.
  rewrite append_assoc. cbn [append].
  apply JSONObject_pairs_step with (rest := ": " ++ iterencode v level ++ after)
                                   (rest1 := " " ++ iterencode v level ++ after).
  - rewrite <- append_assoc. apply scanstring_escape.
  - reflexivity.
  - cbn [append skip_whitespace]. change (is_whitespace " ") with true.
    cbv iota.
    destruct (iterencode_head v level) as (c & x & Hhead & Hc).
    rewrite Hhead. cbn [append]. rewrite skip_whitespace_head by exact Hc.
    change (String c (x ++ after)) with (String c x ++ after).
    rewrite <- Hhead. apply Hv; assumption.
Qed.

Lemma JSONObject_pairs_items level closing rest : forall items kv pairs fuel,
  Forall (fun kv => reads_back (snd kv)) (kv :: items) ->
  Forall (fun kv => unique_keys (snd kv)) (kv :: items) ->
  list_sum (map (fun kv => S (weight (snd kv))) (kv :: items)) <= fuel ->
  forall tail,
    String.concat (item_separator level)
      (map (encode_item level) (kv :: items)) = String quote tail ->
    JSONObject_pairs fuel (tail ++ newline_indent closing ++ "}" ++ rest)
      pairs
    = Some ((pairs ++ kv :: items)%list, rest).
Proof.
  induction items as [| kv' items IH];
    intros [key v] pairs fuel Hread Huniq Hfuel tail Htail;
    apply Forall_cons_iff in Hread; destruct Hread as [Hv Hread];
    apply Forall_cons_iff in Huniq; destruct Huniq as [Uv Huniq];
    cbn [map list_sum fold_right snd] in Hfuel;
    (destruct fuel as [| fuel]; [lia |]); cbn [snd] in Hv, Uv.
  - cbn [map String.concat] in Htail. rewrite encode_item_quote in Htail.
    injection Htail as <-. cbn [fst snd].
    rewrite JSONObject_pairs_item by (assumption || lia).
    rewrite skip_whitespace_newline_indent. reflexivity.
  - destruct (concat_items_quote level (item_separator level) items kv')
      as [tail' Htail'].
    change (String.concat (item_separator level)
              (map (encode_item level) ((key, v) :: kv' :: items)))
      with (encode_item level (key, v) ++ item_separator level
              ++ String.concat (item_separator level)
                   (map (encode_item level) (kv' :: items))) in Htail.
    rewrite encode_item_quote, Htail' in Htail.
    injection Htail as <-. cbn [fst snd].
    rewrite (append_assoc _ (item_separator level ++ String quote tail')).
    rewrite JSONObject_pairs_item by (assumption || lia).
    unfold item_separator. rewrite !append_assoc.
    cbn [append skip_whitespace]. change (is_whitespace ",") with false.
    cbv iota. change (Ascii.eqb "," "}") with false.
    change (Ascii.eqb "," ",") with true. cbv iota.
    rewrite skip_whitespace_newline_indent.
    cbn [append skip_whitespace]. change (is_whitespace quote) with false.
    cbv iota. change (Ascii.eqb quote quote) with true. cbv iota.
    rewrite (IH kv' (pairs ++ [(key, v)])%list fuel Hread Huniq);
      [now rewrite <- app_assoc | | exact Htail'].
    cbn [map list_sum fold_right] in Hfuel |- *. lia.
Qed.

Lemma scan_once_object fuel s :
  scan_once (S fuel) (String "{" s)
  = match skip_whitespace s with
    | String c rest =>
        if Ascii.eqb c "}" then Some (VDict [], rest)
        else if Ascii.eqb c quote then
          match JSONObject_pairs fuel rest [] with
          | Some (pairs, rest') => Some (VDict (dict_of_pairs pairs), rest')
          | None => None
          end
        else None
    | EmptyString => None
    end.
Proof.
  reflexivity.
Qed.

Lemma scan_once_iterencode : forall v, reads_back v.
Proof.
  induction v as [s | items IH] using value_nested_ind;
    intros level fuel rest Hfuel Huniq;
    (destruct fuel as [| fuel]; [simpl in Hfuel; lia |]).
  - cbn [iterencode]. unfold encode_basestring. cbn [append scan_once].
    change (Ascii.eqb quote quote) with true. cbv iota.
    rewrite append_assoc. cbn [append]. rewrite scanstring_escape.
    reflexivity.
  - destruct items as [| kv items]; [reflexivity |].
    apply unique_keys_dict in Huniq. destruct Huniq as [Hnodup Huniq].
    cbn [weight] in Hfuel.
    destruct (concat_items_quote (S level) (item_separator (S level))
                items kv) as [tail Htail].
    rewrite iterencode_dict, Htail, !append_assoc. cbn [append].
    rewrite scan_once_object, skip_whitespace_newline_indent.
    cbn [append skip_whitespace]. change (is_whitespace quote) with false.
    cbv iota. change (Ascii.eqb quote "}") with false.
    change (Ascii.eqb quote quote) with true. cbv iota.
    apply le_S_n in Hfuel.
    change (String "}" rest) with ("}" ++ rest).
    rewrite (@JSONObject_pairs_items (S level) level rest items kv [] fuel
               IH Huniq Hfuel tail Htail).
    unfold dict_of_pairs. rewrite dict_of_pairs_unique;
      [reflexivity | exact Hnodup].
Qed.

End RoundTrip.

Lemma length_concat_items sep level items :
  Forall (fun kv => forall level,
            weight (snd kv) <= String.length (iterencode (snd kv) level))
    items ->
  list_sum (map (fun kv => S (weight (snd kv))) items)
  <= String.length (String.concat sep (map (encode_item level) items)).
Proof.
  induction 1 as [| kv items Hkv _ IH]; [simpl; lia |].
  assert (S (weight (snd kv)) <= String.length (encode_item level kv)) as H.
  { unfold encode_item, encode_basestring. specialize (Hkv level).
    cbn [append String.length]. rewrite length_append.
    cbn [String.length]. lia. }
  unfold list_sum in *. cbn [map fold_right].
  destruct items as [| kv' items].
  - cbn [map String.concat fold_right]. lia.
  - change (String.concat sep
              (encode_item level kv :: map (encode_item level) (kv' :: items)))
      with (encode_item level kv ++ sep
              ++ String.concat sep (map (encode_item level) (kv' :: items))).
    rewrite !length_append. lia.
Qed.

Lemma weight_le_length : forall v level,
  weight v <= String.length (iterencode v level).
Proof.
  induction v as [s | items IH] using value_nested_ind; intros level.
  - simpl. lia.
  - destruct items as [| kv items]; [simpl; lia |].
    rewrite iterencode_dict. cbn [weight append String.length].
    rewrite !length_append.
    pose proof (length_concat_items (item_separator (S level)) (S level) IH).
    lia.
Qed.

(** The document that [json.dump] writes for a dictionary without
    repeated keys is read back by [json.loads] as that dictionary. *)
Lemma loads_dumps v : unique_keys v -> loads (dumps v) = Some v.
Proof.
  intros Huniq. unfold loads, dumps.
  destruct (iterencode_head v 0) as (c & x & Hhead & Hc).
  rewrite Hhead at 2. rewrite skip_whitespace_head by exact Hc.
  rewrite <- Hhead. rewrite <- (append_nil_r (iterencode v 0)) at 2.
  rewrite scan_once_iterencode; [reflexivity | apply weight_le_length |
                                 exact Huniq].
Qed.

(** ** The builder returns dictionaries as Python has them *)

Lemma dict_set_keys k v d :
  NoDup (map fst d) -> NoDup (map fst (dict_set k v d)).
Proof.
  intros H.
  assert (map fst (dict_set k v d)
          = if existsb (String.eqb k) (map fst d)
            then map fst d else (map fst d ++ [k])%list) as ->.
  { clear H. induction d as [| [k0 v0] d IH]; simpl; [reflexivity |].
    destruct (String.eqb k k0); simpl; [reflexivity |].
    rewrite IH. destruct (existsb (String.eqb k) (map fst d)); reflexivity. }
  destruct (existsb (String.eqb k) (map fst d)) eqn:E; [exact H |].
  apply NoDup_app; [exact H | repeat constructor; auto |].
  intros x Hx [<- | []].
  assert (existsb (String.eqb k) (map fst d) = true); [| congruence].
  apply existsb_exists. exists k. split; [exact Hx | apply String.eqb_refl].
Qed.

Lemma fold_dict_set_keys (A : Type) (f : A -> value) items : forall acc,
  NoDup (map fst acc) ->
  NoDup (map fst
           (fold_left (fun d (item : string * A) =>
                         dict_set (fst item) (f (snd item)) d) items acc)).
Proof.
  induction items as [| item items IH]; intros acc H; simpl.
  - exact H.
  - apply IH. apply dict_set_keys. exact H.
Qed.

Lemma hierarchy_unique_keys ig path : unique_keys (hierarchy ig path).
Proof.
  induction path as [| e | err entries IH] using node_nested_ind;
    match goal with
    | |- context [hierarchy ig ?n] =>
        destruct (hierarchy_pairs ig n) as (d & Hd & Hpairs);
        assert (NoDup (map fst d)) as Hnodup;
        [ destruct (list_items_cases ig n) as [[items H] | [e' H]];
          [ rewrite (hierarchy_items _ _ H) in Hd; injection Hd as <-;
            apply fold_dict_set_keys; constructor
          | apply hierarchy_raise in H;
            destruct (handler_total e') as [msg Hmsg];
            rewrite Hmsg, Hd in H; injection H as <-;
            repeat constructor; auto ]
        | rewrite Hd; apply unique_keys_dict; split; [exact Hnodup |] ]
    end;
    apply Forall_forall; intros [k v] Hin;
    destruct (Hpairs _ _ Hin)
      as [[_ [msg ->]] | (entries' & item & Heq & Hentries & _ & ->)];
    try exact I; try discriminate.
  injection Heq as _ <-. rewrite Forall_forall in IH.
  apply (IH _ Hentries).
Qed.

(** ** Written documents are well-formed UTF-8 *)

Lemma valid_utf8_well_formed s : valid_utf8 s = true <-> well_formed s.
Proof.
  unfold valid_utf8, well_formed.
  destruct (utf8_run Start s) as [[] |]; split; congruence.
Qed.

Lemma utf8_run_app st a b :
  utf8_run st (a ++ b)
  = match utf8_run st a with
    | Some st' => utf8_run st' b
    | None => None
    end.
Proof.
  revert st. induction a as [| c a IH]; intros st; simpl.
  - reflexivity.
  - destruct (utf8_step st c); [apply IH | reflexivity].
Qed.

Lemma well_formed_app a b :
  well_formed a -> well_formed b -> well_formed (a ++ b).
Proof.
  unfold well_formed. intros Ha Hb. now rewrite utf8_run_app, Ha.
Qed.

(** Escaping replaces ASCII characters by ASCII characters. *)
Lemma utf8_run_escape_char c st :
  utf8_run st (escape_char c)
  = match utf8_step st c with
    | Some st' => Some st'
    | None => None
    end.
Proof.
  destruct c as [[] [] [] [] [] [] [] []]; destruct st; reflexivity.
Qed.

Lemma utf8_run_escape s : forall st, utf8_run st (escape s) = utf8_run st s.
Proof.
  induction s as [| c s IH]; intros st; cbn [escape utf8_run].
  - reflexivity.
  - rewrite utf8_run_app, utf8_run_escape_char.
    destruct (utf8_step st c); [apply IH | reflexivity].
Qed.

Lemma well_formed_encode_basestring s :
  well_formed s -> well_formed (encode_basestring s).
Proof.
  unfold well_formed, encode_basestring. intros H.
  cbn [utf8_run]. change (utf8_step Start quote) with (Some Start).
  cbv iota. now rewrite utf8_run_app, utf8_run_escape, H.
Qed.

Lemma well_formed_newline_indent n : well_formed (newline_indent n).
Proof.
  unfold well_formed, newline_indent. cbn [utf8_run].
  change (utf8_step Start newline) with (Some Start). cbv iota.
  induction (2 * n) as [| m IH]; [reflexivity | exact IH].
Qed.

Lemma well_formed_concat sep l :
  well_formed sep -> Forall well_formed l -> well_formed (String.concat sep l).
Proof.
  intros Hsep. induction 1 as [| x l Hx Hl IH]; [reflexivity |].
  destruct l as [| y l]; [exact Hx |].
  change (String.concat sep (x :: y :: l))
    with (x ++ sep ++ String.concat sep (y :: l)).
  auto using well_formed_app.
Qed.

Lemma well_formed_encode_item level kv :
  valid_utf8 (fst kv) = true ->
  well_formed (iterencode (snd kv) level) ->
  well_formed (encode_item level kv).
Proof.
  intros Hk Hv. unfold encode_item.
  apply well_formed_app.
  - apply well_formed_encode_basestring, valid_utf8_well_formed, Hk.
  - apply (well_formed_app (a := ": ")); [reflexivity | exact Hv].
Qed.

Lemma well_formed_iterencode : forall v level,
  encodable v = true -> well_formed (iterencode v level).
Proof.
  induction v as [s | items IH] using value_nested_ind; intros level H.
  - apply well_formed_encode_basestring, valid_utf8_well_formed, H.
  - destruct items as [| kv items]; [reflexivity |].
    rewrite iterencode_dict.
    cbn [encodable] in H. rewrite forallb_forall in H.
    rewrite Forall_forall in IH.
    apply (well_formed_app (a := "{")); [reflexivity |].
    apply well_formed_app; [apply well_formed_newline_indent |].
    apply well_formed_app; [| apply well_formed_app;
                               [apply well_formed_newline_indent
                               | reflexivity]].
    apply well_formed_concat.
    + apply (well_formed_app (a := ",")); [reflexivity |].
      apply well_formed_newline_indent.
    + apply Forall_forall. intros x Hx.
      apply in_map_iff in Hx. destruct Hx as (kv' & <- & Hin).
      specialize (H _ Hin). apply andb_true_iff in H. destruct H as [Hk Hv].
      apply well_formed_encode_item; [exact Hk |].
      apply (IH _ Hin). exact Hv.
Qed.

(** What [json_dump_file] writes, [json_load] reads back. *)
Lemma json_load_dumps v :
  unique_keys v -> encodable v = true -> json_load (dumps v) = Some v.
Proof.
  intros Huniq Henc. unfold json_load.
  assert (valid_utf8 (dumps v) = true) as ->.
  { apply valid_utf8_well_formed, well_formed_iterencode, Henc. }
  apply loads_dumps, Huniq.
Qed.

Lemma unique_keys_wrap k v : unique_keys v -> unique_keys (VDict [(k, v)]).
Proof.
  intros H. apply unique_keys_dict. split.
  - repeat constructor. simpl. tauto.
  - repeat constructor. exact H.
Qed.

(** ** Runs of the driver *)

Lemma Permutation_length_3_inv (A : Type) (a b c : A) l :
  Permutation [a; b; c] l ->
  l = [a; b; c] \/ l = [a; c; b] \/ l = [b; a; c]
  \/ l = [c; a; b] \/ l = [b; c; a] \/ l = [c; b; a].
Proof.
  intros H.
  destruct (Permutation_vs_cons_inv (Permutation_sym H)) as (l1 & l2 & ->).
  apply Permutation_cons_app_inv in H.
  apply Permutation_length_2_inv in H.
  destruct l1 as [| x [| y [| z l1]]]; simpl in *;
    destruct H as [H | H]; try discriminate;
    try (injection H as -> ->); try (injection H as -> -> ->); subst; auto 10;
    destruct l1; discriminate.
Qed.

(** The run on a root that is a directory, when the output can be
    opened. *)
Lemma run_on_directory sys args err entries :
  lookup sys (path args) = Some (Dir err entries) ->
  open_error sys (output args) = None ->
  let document :=
    VDict [(basename (abspath sys (path args)),
            hierarchy (ignore args) (Dir err entries))] in
  let before :=
    Print ("Building folder hierarchy from '" ++ path args ++ "'...")
      :: ignoring_line (ignore args) in
  run sys args
  = if encodable document
    then (Ok tt,
          (before
             ++ [Write (output args) (dumps document);
                 Print ("Folder hierarchy saved to '" ++ output args ++ "'")])
          %list)
    else (Raise UnicodeEncodeError, (before ++ [Partial (output args)])%list).
Proof.
  intros Hlookup Hopen document before. subst document before.
  unfold run, main, os_path_exists, os_path_isdir, get_folder_hierarchy_at.
  rewrite Hlookup. cbn [negb].
  unfold seq, print, lift, json_dump_file, ret.
  rewrite get_folder_hierarchy_hierarchy, Hopen. cbn [default_ignore].
  destruct (encodable _); destruct (ignore args); reflexivity.
Qed.

Lemma ignoring_line_prints ignore_folders :
  Forall is_print (ignoring_line ignore_folders).
Proof.
  destruct ignore_folders; repeat constructor.
Qed.

(** C1.  The root is a directory named [project] that holds, in any
    order of listing, the directory [src] (holding the empty directory
    [utils] and the hidden [.cache]), the directory [node_modules] and
    the file [README.md].  With [node_modules] ignored the run announces
    itself, writes the document [{"project": {"src": {"utils": {}}}}],
    which reads back as that mapping, and reports the file. *)
Theorem project_scenario sys args entries src_entries cache err modules :
  lookup sys (path args) = Some (Dir None entries) ->
  Permutation
    [("src", Dir None src_entries);
     ("node_modules", Dir err modules);
     ("README.md", File)] entries ->
  Permutation [("utils", Dir None []); (".cache", cache)] src_entries ->
  basename (abspath sys (path args)) = "project" ->
  ignore args = ["node_modules"] ->
  open_error sys (output args) = None ->
  let document :=
    VDict [("project", VDict [("src", VDict [("utils", VDict [])])])] in
  run sys args
  = (Ok tt,
     [Print ("Building folder hierarchy from '" ++ path args ++ "'...");
      Print "Ignoring folders: node_modules";
      Write (output args) (dumps document);
      Print ("Folder hierarchy saved to '" ++ output args ++ "'")])
  /\ json_load (dumps document) = Some document.
Proof.
  intros Hlookup Hentries Hsrc Hname Hignore Hopen document.
  split; [| reflexivity].
  rewrite (run_on_directory _ _ Hlookup Hopen), Hname, Hignore.
  assert (hierarchy ["node_modules"] (Dir None entries)
          = VDict [("src", VDict [("utils", VDict [])])]) as ->;
    [| reflexivity].
  apply Permutation_length_2_inv in Hsrc.
  apply Permutation_length_3_inv in Hentries.
  destruct Hsrc as [-> | ->];
    destruct Hentries as [-> | [-> | [-> | [-> | [-> | ->]]]]];
    unfold hierarchy; destruct err; reflexivity.
Qed.

Lemma project_scenario_witness :
  let document :=
    VDict [("project", VDict [("src", VDict [("utils", VDict [])])])] in
  run sample_system (sample_args "project" ["node_modules"])
  = (Ok tt,
     [Print "Building folder hierarchy from 'project'...";
      Print "Ignoring folders: node_modules";
      Write "folder_hierarchy.json" (dumps document);
      Print "Folder hierarchy saved to 'folder_hierarchy.json'"])
  /\ json_load (dumps document) = Some document.
Proof.
  apply (@project_scenario sample_system
           (sample_args "project" ["node_modules"])
           [("src", Dir None [("utils", Dir None []); (".cache", Dir None [])]);
            ("node_modules", Dir None [("lodash", Dir None [])]);
            ("README.md", File)]
           [("utils", Dir None []); (".cache", Dir None [])]
           (Dir None []) None [("lodash", Dir None [])]);
    try reflexivity; apply Permutation_refl.
Defined.

(** C7.  When the root path does not exist the run prints the
    ["does not exist"] message, whether or not the path would pass the
    directory test, which comes second; when it exists and is not a
    directory the run prints the ["is not a directory"] message.  In
    both cases the run returns normally and that line is its only
    effect: nothing is written. *)
Theorem invalid_root_only_reports sys args :
  (os_path_exists sys (path args) = false ->
   run sys args
   = (Ok tt, [Print ("Error: Path '" ++ path args ++ "' does not exist.")]))
  /\ (os_path_exists sys (path args) = true ->
      os_path_isdir sys (path args) = false ->
      run sys args
      = (Ok tt,
         [Print ("Error: Path '" ++ path args ++ "' is not a directory.")])).
Proof.
  unfold run, main. split.
  - intros ->. reflexivity.
  - intros -> ->. reflexivity.
Qed.

Lemma invalid_root_only_reports_witness :
  run sample_system (sample_args "missing" [])
  = (Ok tt, [Print "Error: Path 'missing' does not exist."])
  /\ run sample_system (sample_args "project/README.md" [])
     = (Ok tt, [Print "Error: Path 'project/README.md' is not a directory."]).
Proof.
  split.
  - apply (proj1 (invalid_root_only_reports sample_system
                    (sample_args "missing" []))).
    reflexivity.
  - apply (proj2 (invalid_root_only_reports sample_system
                    (sample_args "project/README.md" []))); reflexivity.
Defined.

(** C8.  In every run that returns normally and writes a document, the
    document is the serialization of a dictionary with exactly one key,
    the base name of the absolute root path, whose value is what the
    builder returns for the root; it goes to the output path, it is the
    only thing written, and it reads back as that dictionary. *)
Theorem written_document_wraps_hierarchy sys args trace file text :
  run sys args = (Ok tt, trace) ->
  In (Write file text) trace ->
  exists node_value before,
    get_folder_hierarchy_at (lookup sys) (path args) (Some (ignore args))
    = Ok node_value
    /\ let document :=
         VDict [(basename (abspath sys (path args)), node_value)] in
       file = output args
       /\ text = dumps document
       /\ trace
          = (before
               ++ [Write (output args) (dumps document);
                   Print ("Folder hierarchy saved to '" ++ output args ++ "'")])
            %list
       /\ Forall is_print before
       /\ json_load text = Some document.
Proof.
  intros Hrun Hin.
  destruct (os_path_exists sys (path args)) eqn:Hexists.
  - destruct (os_path_isdir sys (path args)) eqn:Hdir.
    + unfold os_path_isdir in Hdir.
      destruct (lookup sys (path args)) as [[| err entries | e] |] eqn:Hlookup;
        try discriminate.
      destruct (open_error sys (output args)) as [e |] eqn:Hopen.
      * unfold run, main, os_path_exists, os_path_isdir in Hrun.
        rewrite Hlookup in Hrun. cbn [negb] in Hrun.
        unfold seq, print, lift, json_dump_file, ret,
          get_folder_hierarchy_at in Hrun.
        rewrite Hlookup, get_folder_hierarchy_hierarchy, Hopen in Hrun.
        destruct (ignore args); discriminate.
      * rewrite (run_on_directory _ _ Hlookup Hopen) in Hrun.
        destruct (encodable _) eqn:Henc in Hrun; [| discriminate].
        injection Hrun as <-.
        exists (hierarchy (ignore args) (Dir err entries)).
        exists (Print ("Building folder hierarchy from '" ++ path args
                       ++ "'...") :: ignoring_line (ignore args)).
        split.
        { unfold get_folder_hierarchy_at. rewrite Hlookup.
          apply get_folder_hierarchy_hierarchy. }
        assert (file = output args
                /\ text
                   = dumps
                       (VDict [(basename (abspath sys (path args)),
                                hierarchy (ignore args) (Dir err entries))]))
          as [-> ->].
        { destruct Hin as [Hin | Hin]; [discriminate |].
          apply in_app_or in Hin. destruct Hin as [Hin | Hin].
          - exfalso.
            pose proof (ignoring_line_prints (ignore args)) as Hp.
            rewrite Forall_forall in Hp. apply (Hp _ Hin).
          - destruct Hin as [Hin | [Hin | []]]; [| discriminate].
            injection Hin as <- <-. auto. }
        cbv zeta. repeat split.
        { constructor; [exact I | apply ignoring_line_prints]. }
        { apply json_load_dumps; [| exact Henc].
          apply unique_keys_wrap, hierarchy_unique_keys. }
    + exfalso. unfold run, main in Hrun. rewrite Hexists, Hdir in Hrun.
      injection Hrun as <-. destruct Hin as [Hin | []]. discriminate.
  - exfalso. unfold run, main in Hrun. rewrite Hexists in Hrun.
    injection Hrun as <-. destruct Hin as [Hin | []]. discriminate.
Qed.

Lemma written_document_wraps_hierarchy_witness :
  exists node_value before,
    get_folder_hierarchy_at (lookup sample_system) "sample" (Some [".git"])
    = Ok node_value
    /\ let document :=
         VDict [(basename (abspath sample_system "sample"), node_value)] in
       "folder_hierarchy.json" = "folder_hierarchy.json"
       /\ dumps (VDict [("sample", hierarchy [".git"] sample_tree)])
          = dumps document
       /\ snd (run sample_system (sample_args "sample" [".git"]))
          = (before
               ++ [Write "folder_hierarchy.json" (dumps document);
                   Print "Folder hierarchy saved to 'folder_hierarchy.json'"])
            %list
       /\ Forall is_print before
       /\ json_load (dumps (VDict [("sample", hierarchy [".git"] sample_tree)]))
          = Some document.
Proof.
  apply (@written_document_wraps_hierarchy sample_system
           (sample_args "sample" [".git"])
           (snd (run sample_system (sample_args "sample" [".git"])))
           "folder_hierarchy.json"
           (dumps (VDict [("sample", hierarchy [".git"] sample_tree)]))).
  - reflexivity.
  - vm_compute. do 2 right. left. reflexivity.
Defined.

(** C9, as stated, fails: a directory whose name is not UTF-8 (here the
    single byte 0xE9) is listed and put in the hierarchy, but the
    document cannot be written: the write raises and leaves an
    unfinished file, so there is nothing to read back. *)
Lemma undecodable_name_counterexample :
  get_folder_hierarchy music_tree None
  = Ok (VDict [(String "233" EmptyString, VDict [])])
  /\ run sample_system (sample_args "music" [])
     = (Raise UnicodeEncodeError,
        [Print "Building folder hierarchy from 'music'...";
         Partial "folder_hierarchy.json"]).
Proof.
  split; reflexivity.
Qed.

(** A value can be encoded exactly when each of its strings is
    well-formed UTF-8. *)
Lemma encodable_strings : forall v,
  encodable v = true <-> (forall s, In s (strings v) -> valid_utf8 s = true).
Proof.
  induction v as [s | items IH] using value_nested_ind.
  - cbn [encodable strings]. split.
    + intros H s' [<- | []]. exact H.
    + intros H. apply H. left. reflexivity.
  - cbn [encodable strings]. rewrite forallb_forall.
    rewrite Forall_forall in IH. split.
    + intros H s Hs. apply in_flat_map in Hs. destruct Hs as (kv & Hin & Hs).
      specialize (H _ Hin). apply andb_true_iff in H. destruct H as [Hk Hv].
      destruct Hs as [<- | Hs]; [exact Hk |].
      apply (proj1 (IH _ Hin) Hv), Hs.
    + intros H kv Hin. apply andb_true_iff. split.
      * apply H, in_flat_map. exists kv. split; [exact Hin | left; reflexivity].
      * apply (IH _ Hin). intros s Hs.
        apply H, in_flat_map. exists kv. split; [exact Hin | right; exact Hs].
Qed.

(** C9, amended.  The document is the hierarchy under the root's name;
    its strings are that name and the strings of the hierarchy
    (directory names, the mark ["error"], failure descriptions).  When
    all of them are well-formed UTF-8, non-ASCII characters included,
    the document is written in full and reads back as the very same
    structure: every key of the parsed document is, byte for byte, the
    name that was serialized.  When one of them is not well-formed
    UTF-8, the write raises [UnicodeEncodeError] and leaves an
    unfinished file: no document is written. *)
Theorem valid_names_read_back sys file root_name path ignore_folders
    hierarchy_node :
  get_folder_hierarchy path ignore_folders = Ok hierarchy_node ->
  open_error sys file = None ->
  let document := VDict [(root_name, hierarchy_node)] in
  ((forall s, In s (root_name :: strings hierarchy_node) ->
              valid_utf8 s = true) ->
   json_dump_file sys file document [] = (Ok tt, [Write file (dumps document)])
   /\ json_load (dumps document) = Some document)
  /\ (forall s, In s (root_name :: strings hierarchy_node) ->
                valid_utf8 s = false ->
      json_dump_file sys file document []
      = (Raise UnicodeEncodeError, [Partial file])).
Proof.
  intros Hbuild Hopen document.
  assert (strings document = root_name :: strings hierarchy_node) as Hstrings.
  { subst document. cbn [strings flat_map fst snd]. apply app_nil_r. }
  rewrite <- Hstrings. split.
  - intros Hvalid. apply encodable_strings in Hvalid. split.
    + unfold json_dump_file. rewrite Hopen, Hvalid. reflexivity.
    + rewrite get_folder_hierarchy_hierarchy in Hbuild.
      injection Hbuild as <-.
      apply json_load_dumps; [| exact Hvalid].
      apply unique_keys_wrap, hierarchy_unique_keys.
  - intros s Hin Hs. unfold json_dump_file. rewrite Hopen.
    destruct (encodable document) eqn:Henc; [| reflexivity].
    rewrite (proj1 (encodable_strings document) Henc s Hin) in Hs.
    discriminate.
Qed.

Lemma valid_names_read_back_witness :
  (let document :=
     VDict [("音楽", VDict [("日本語", VDict [("données", VDict [])])])] in
   json_dump_file sample_system "folder_hierarchy.json" document []
   = (Ok tt, [Write "folder_hierarchy.json" (dumps document)])
   /\ json_load (dumps document) = Some document)
  /\ (let document := VDict [("music", VDict [(String "233" EmptyString, VDict [])])] in
      json_dump_file sample_system "folder_hierarchy.json" document []
      = (Raise UnicodeEncodeError, [Partial "folder_hierarchy.json"])).
Proof.
  split.
  - apply (proj1 (@valid_names_read_back sample_system "folder_hierarchy.json"
                    "音楽" unicode_tree None
                    (VDict [("日本語", VDict [("données", VDict [])])])
                    eq_refl eq_refl)).
    intros s [<- | [<- | [<- | []]]]; reflexivity.
  - apply (proj2 (@valid_names_read_back sample_system "folder_hierarchy.json"
                    "music" music_tree None
                    (VDict [(String "233" EmptyString, VDict [])])
                    eq_refl eq_refl)
             (String "233" EmptyString));
      [right; left; reflexivity | reflexivity].
Defined.

(** Characters outside ASCII are written as they are, not as escapes. *)
Example non_ascii_written_literally :
  escape "日本語 données" = "日本語 données".
Proof.
  reflexivity.
Qed.

(** * Further properties of the builder *)

(** ** How the ignore list acts *)

Lemma contains_app ig1 ig2 name :
  contains (ig1 ++ ig2)%list name = contains ig1 name || contains ig2 name.
Proof.
  unfold contains. apply existsb_app.
Qed.

Lemma keep_app ig1 ig2 item :
  keep (ig1 ++ ig2)%list item
  = match keep ig1 item with
    | Ok true => Ok (negb (contains ig2 (fst item)))
    | r => r
    end.
Proof.
  unfold keep. destruct (startswith_dot (fst item)); cbn [negb]; [reflexivity |].
  destruct (is_dir (snd item)) as [[|] | e]; cbn [bind]; try reflexivity.
  rewrite contains_app.
  destruct (contains ig1 (fst item)); reflexivity.
Qed.

Lemma filterM_keep_app ig1 ig2 entries :
  filterM (keep (ig1 ++ ig2)%list) entries
  = match filterM (keep ig1) entries with
    | Ok items =>
        Ok (filter (fun item => negb (contains ig2 (fst item))) items)
    | Raise e => Raise e
    end.
Proof.
  induction entries as [| item entries IH]; cbn [filterM]; [reflexivity |].
  rewrite keep_app, IH.
  destruct (keep ig1 item) as [[|] | e]; cbn [bind]; try reflexivity;
    destruct (filterM (keep ig1) entries) as [items | e]; cbn [bind filter];
    reflexivity.
Qed.

Lemma list_items_app ig1 ig2 path :
  list_items path (ig1 ++ ig2)%list
  = match list_items path ig1 with
    | Ok items =>
        Ok (filter (fun item => negb (contains ig2 (fst item))) items)
    | Raise e => Raise e
    end.
Proof.
  unfold list_items. destruct (iterdir path) as [entries | e]; cbn [bind].
  - apply filterM_keep_app.
  - reflexivity.
Qed.

Lemma Ok_injective (A : Type) (a b : A) : Ok a = Ok b -> a = b.
Proof.
  congruence.
Qed.

Lemma hierarchy_is_dict ig path : is_dict (hierarchy ig path) = true.
Proof.
  destruct (hierarchy_pairs ig path) as (d & -> & _). reflexivity.
Qed.

Lemma fold_left_ext_in (A B : Type) (f g : A -> B -> A) l :
  (forall x, In x l -> forall a, f a x = g a x) ->
  forall a, fold_left f l a = fold_left g l a.
Proof.
  induction l as [| x l IH]; intros H a; simpl; [reflexivity |].
  rewrite (H x (or_introl eq_refl)). apply IH.
  intros y Hy. apply H. right. exact Hy.
Qed.

Section Pruning.

Variable names : list string.

Let pruned (d : dict) : dict :=
  flat_map
    (fun kv =>
       if contains names (fst kv) && is_dict (snd kv) then []
       else [(fst kv, prune names (snd kv))]) d.

Lemma prune_dict d : prune names (VDict d) = VDict (pruned d).
Proof.
  reflexivity.
Qed.

Lemma pruned_dict_set k v d :
  is_dict v = true ->
  Forall (fun kv => is_dict (snd kv) = true) d ->
  pruned (dict_set k v d)
  = if contains names k then pruned d
    else dict_set k (prune names v) (pruned d).
Proof.
  intros Hv. induction 1 as [| [k0 v0] d H0 Hd IH].
  - cbn. rewrite Hv, andb_true_r. destruct (contains names k); reflexivity.
  - cbn [snd] in H0. cbn [dict_set].
    destruct (String.eqb k k0) eqn:E.
    + apply String.eqb_eq in E. subst k0.
      cbn [pruned flat_map fst snd]. rewrite Hv, H0, !andb_true_r.
      destruct (contains names k); cbn [app dict_set].
      * reflexivity.
      * rewrite String.eqb_refl. reflexivity.
    + change (pruned ((k0, v0) :: dict_set k v d))
        with ((if contains names k0 && is_dict v0 then []
               else [(k0, prune names v0)]) ++ pruned (dict_set k v d))%list.
      change (pruned ((k0, v0) :: d))
        with ((if contains names k0 && is_dict v0 then []
               else [(k0, prune names v0)]) ++ pruned d)%list.
      rewrite IH.
      destruct (contains names k); [reflexivity |].
      destruct (contains names k0 && is_dict v0); cbn [app dict_set];
        [reflexivity |].
      rewrite E. reflexivity.
Qed.

Lemma dict_set_is_dict k v d :
  is_dict v = true ->
  Forall (fun kv => is_dict (snd kv) = true) d ->
  Forall (fun kv => is_dict (snd kv) = true) (dict_set k v d).
Proof.
  intros Hv. induction 1 as [| [k0 v0] d H0 Hd IH]; cbn [dict_set].
  - repeat constructor. exact Hv.
  - destruct (String.eqb k k0); constructor; auto.
Qed.

Lemma pruned_fold (f g : node -> value) items :
  (forall item, In item items ->
     is_dict (f (snd item)) = true
     /\ g (snd item) = prune names (f (snd item))) ->
  forall acc,
    Forall (fun kv => is_dict (snd kv) = true) acc ->
    pruned (fold_left (fun d item => dict_set (fst item) (f (snd item)) d)
              items acc)
    = fold_left (fun d item => dict_set (fst item) (g (snd item)) d)
        (filter (fun item => negb (contains names (fst item))) items)
        (pruned acc).
Proof.
  induction items as [| item items IH]; intros H acc Hacc; cbn [fold_left filter].
  - reflexivity.
  - destruct (H item (or_introl eq_refl)) as [Hf Hg].
    rewrite IH.
    + rewrite pruned_dict_set by assumption.
      destruct (contains names (fst item)); cbn [negb fold_left];
        [reflexivity |].
      rewrite Hg. reflexivity.
    + intros x Hx. apply H. right. exact Hx.
    + apply dict_set_is_dict; assumption.
Qed.

End Pruning.

Lemma prune_error_dict names msg :
  prune names (error_dict msg) = error_dict msg.
Proof.
  unfold error_dict. cbn. rewrite andb_false_r. reflexivity.
Qed.

Lemma hierarchy_app ig1 ig2 path :
  hierarchy (ig1 ++ ig2)%list path = prune ig2 (hierarchy ig1 path).
Proof.
  induction path as [| e | err entries IH] using node_nested_ind;
    match goal with
    | |- context [hierarchy ig1 ?n] =>
        pose proof (list_items_app ig1 ig2 n) as Happ;
        destruct (list_items n ig1) as [items | e'] eqn:H1
    end;
    try (apply hierarchy_raise in H1; apply hierarchy_raise in Happ;
         destruct (handler_total e') as [msg Hmsg];
         rewrite Hmsg in H1, Happ;
         apply Ok_injective in H1; apply Ok_injective in Happ;
         rewrite <- H1, <- Happ; symmetry; apply prune_error_dict);
    try (cbn in H1; discriminate).
  rewrite (hierarchy_items _ _ H1), (hierarchy_items _ _ Happ), prune_dict.
  f_equal.
  rewrite (@pruned_fold ig2 (hierarchy ig1) (hierarchy (ig1 ++ ig2)%list));
    [reflexivity | | constructor].
  intros item Hitem. split; [apply hierarchy_is_dict |].
  destruct (list_items_In _ _ _ H1 Hitem) as (es & Heq & Hin & _).
  injection Heq as _ <-.
  rewrite Forall_forall in IH. apply (IH _ Hin).
Qed.

Lemma keep_ext ig1 ig2 item :
  (forall name, startswith_dot name = false ->
                contains ig1 name = contains ig2 name) ->
  keep ig1 item = keep ig2 item.
Proof.
  intros H. unfold keep.
  destruct (startswith_dot (fst item)) eqn:E; cbn [negb]; [reflexivity |].
  rewrite (H _ E). reflexivity.
Qed.

Lemma filterM_ext (A : Type) (c1 c2 : A -> fallible bool) l :
  (forall x, c1 x = c2 x) -> filterM c1 l = filterM c2 l.
Proof.
  intros H. induction l as [| x l IH]; cbn [filterM]; [reflexivity |].
  now rewrite H, IH.
Qed.

Lemma hierarchy_ext ig1 ig2 path :
  (forall name, startswith_dot name = false ->
                contains ig1 name = contains ig2 name) ->
  hierarchy ig1 path = hierarchy ig2 path.
Proof.
  intros Hext.
  assert (forall n, list_items n ig1 = list_items n ig2) as Hlist.
  { intros n. unfold list_items. destruct (iterdir n); cbn [bind];
      [| reflexivity].
    apply filterM_ext. intros x. apply keep_ext, Hext. }
  induction path as [| e | err entries IH] using node_nested_ind;
    match goal with
    | |- context [hierarchy ig1 ?n] =>
        pose proof (Hlist n) as Heq;
        destruct (list_items n ig1) as [items | e'] eqn:H1
    end; symmetry in Heq;
    try (apply hierarchy_raise in H1; apply hierarchy_raise in Heq;
         congruence);
    try (cbn in H1; discriminate).
  rewrite (hierarchy_items _ _ H1), (hierarchy_items _ _ Heq). f_equal.
  apply fold_left_ext_in. intros item Hitem d. f_equal.
  destruct (list_items_In _ _ _ H1 Hitem) as (es & Hes & Hin & _).
  injection Hes as _ <-.
  rewrite Forall_forall in IH. apply (IH _ Hin).
Qed.

Lemma contains_true_iff ig name : contains ig name = true <-> In name ig.
Proof.
  unfold contains. rewrite existsb_exists. split.
  - intros (x & Hx & E). apply String.eqb_eq in E. now subst.
  - intros H. exists name. split; [exact H | apply String.eqb_refl].
Qed.

Lemma contains_same_members ig1 ig2 name :
  (forall n, In n ig1 <-> In n ig2) ->
  contains ig1 name = contains ig2 name.
Proof.
  intros H.
  destruct (contains ig1 name) eqn:E1, (contains ig2 name) eqn:E2;
    try reflexivity.
  - apply contains_true_iff, H, contains_true_iff in E1. congruence.
  - apply contains_true_iff, H, contains_true_iff in E2. congruence.
Qed.

Lemma filterM_all_true (A : Type) (cond : A -> fallible bool) l :
  (forall x, In x l -> cond x = Ok true) -> filterM cond l = Ok l.
Proof.
  induction l as [| x l IH]; intros H; cbn [filterM]; [reflexivity |].
  rewrite (H x (or_introl eq_refl)), IH; [reflexivity |].
  intros y Hy. apply H. right. exact Hy.
Qed.

Lemma filterM_raises (A : Type) (cond : A -> fallible bool) l x e :
  In x l -> cond x = Raise e -> exists e', filterM cond l = Raise e'.
Proof.
  induction l as [| a l IH]; intros Hin Hx; [destruct Hin |].
  cbn [filterM]. destruct Hin as [-> | Hin].
  - rewrite Hx. cbn [bind]. eauto.
  - destruct (cond a); cbn [bind]; [| eauto].
    destruct (IH Hin Hx) as [e' ->]. cbn [bind]. eauto.
Qed.

Lemma fold_left_dict_set_map (f : node -> value) items : forall acc,
  fold_left (fun d item => dict_set (fst item) (f (snd item)) d) items acc
  = fold_left (fun d kv => dict_set (fst kv) (snd kv) d)
      (map (fun item => (fst item, f (snd item))) items) acc.
Proof.
  induction items as [| item items IH]; intros acc; simpl; [reflexivity |].
  apply IH.
Qed.

(** The dictionary that the builder returns for a node is the sentinel
    or holds dictionaries only. *)
Lemma hierarchy_shape ig path d :
  hierarchy ig path = VDict d ->
  Forall (fun kv => is_dict (snd kv) = true) d
  \/ exists msg, d = [("error", VStr msg)].
Proof.
  intros Hd.
  destruct (list_items_cases ig path) as [[items H] | [e H]].
  - left. rewrite (hierarchy_items _ _ H) in Hd. injection Hd as <-.
    apply Forall_forall. intros [k v] Hin.
    apply fold_dict_set_In in Hin.
    destruct Hin as [[] | (item & _ & _ & Hv)].
    cbn [snd]. rewrite Hv. apply hierarchy_is_dict.
  - right. apply hierarchy_raise in H.
    destruct (handler_total e) as [msg Hmsg]. rewrite Hmsg, Hd in H.
    exists msg. unfold error_dict in H. congruence.
Qed.

Lemma subvalue_visited ig : forall p path d,
  subvalue p (hierarchy ig path) = Some (VDict d) ->
  exists n, visited ig path p n /\ hierarchy ig n = VDict d.
Proof.
  induction p as [| k p IH]; intros path d H.
  - exists path. split; [apply visited_root |]. simpl in H. congruence.
  - destruct (list_items_cases ig path) as [[items Hl] | [e Hl]].
    + rewrite (hierarchy_items _ _ Hl) in H. cbn [subvalue] in H.
      rewrite dict_get_fold in H.
      destruct (last_item k items) as [item |] eqn:Hlast; [| discriminate].
      destruct (IH _ _ H) as (n & Hv & Hn).
      exists n. split; [| exact Hn].
      eapply visited_item; eassumption.
    + apply hierarchy_raise in Hl.
      destruct (handler_total e) as [msg Hmsg]. rewrite Hmsg in Hl.
      apply Ok_injective in Hl. rewrite <- Hl in H.
      unfold error_dict in H. cbn [subvalue dict_get] in H.
      destruct (String.eqb k "error"); [| discriminate].
      destruct p; discriminate.
Qed.

(** X1.  When the listing of [path] succeeds and the kept items have
    distinct names, as in a file system, the builder returns one pair
    for each kept item, in the order of the listing, with the builder's
    result for that item. *)
Theorem keys_follow_listing ig path items :
  list_items path ig = Ok items ->
  NoDup (map fst items) ->
  get_folder_hierarchy path (Some ig)
  = Ok (VDict (map (fun item => (fst item, hierarchy ig (snd item))) items))
  /\ Forall (fun item =>
               get_folder_hierarchy (snd item) (Some ig)
               = Ok (hierarchy ig (snd item))) items.
Proof.
  intros H Hnodup. split.
  - rewrite get_folder_hierarchy_hierarchy. cbn [default_ignore].
    rewrite (hierarchy_items _ _ H), fold_left_dict_set_map.
    rewrite dict_of_pairs_unique; [reflexivity |].
    cbn [app]. rewrite map_map. cbn [fst]. exact Hnodup.
  - apply Forall_forall. intros item _.
    apply (get_folder_hierarchy_hierarchy (snd item) (Some ig)).
Qed.

Lemma keys_follow_listing_witness :
  get_folder_hierarchy sample_tree (Some ["docs"])
  = Ok (VDict
          (map (fun item => (fst item, hierarchy ["docs"] (snd item)))
             [("vault", vault); ("error", Dir None [("log", Dir None [])])]))
  /\ Forall (fun item =>
               get_folder_hierarchy (snd item) (Some ["docs"])
               = Ok (hierarchy ["docs"] (snd item)))
       [("vault", vault); ("error", Dir None [("log", Dir None [])])].
Proof.
  apply (@keys_follow_listing ["docs"] sample_tree
           [("vault", vault); ("error", Dir None [("log", Dir None [])])]).
  - reflexivity.
  - repeat constructor; simpl; intuition discriminate.
Defined.

(** X2.  The builder returns the empty dictionary exactly when the
    listing succeeds and keeps nothing: an empty result is a directory
    without visible, non-ignored subdirectories, never a failure. *)
Theorem empty_mapping_means_leaf path ignore_folders :
  get_folder_hierarchy path ignore_folders = Ok (VDict [])
  <-> list_items path (default_ignore ignore_folders) = Ok [].
Proof.
  rewrite get_folder_hierarchy_hierarchy. split.
  - intros H. apply Ok_injective in H.
    destruct (list_items_cases (default_ignore ignore_folders) path)
      as [[items Hl] | [e Hl]].
    + destruct items as [| item items]; [exact Hl |]. exfalso.
      rewrite (hierarchy_items _ _ Hl) in H.
      apply (f_equal (subvalue [fst item])) in H.
      cbn [subvalue] in H. rewrite dict_get_fold in H.
      cbn [last_item dict_get] in H.
      destruct (last_item (fst item) items); [discriminate |].
      rewrite String.eqb_refl in H. discriminate.
    + exfalso. apply hierarchy_raise in Hl.
      destruct (handler_total e) as [msg Hmsg].
      rewrite Hmsg, H in Hl. discriminate.
  - intros H. rewrite (hierarchy_items _ _ H). reflexivity.
Qed.

(** X3.  Ignoring more names is pruning: the result for the ignore list
    [ig1 ++ ig2] is the result for [ig1] without the sub-dictionaries
    whose key is in [ig2], at every level (sentinels stay).  With [ig1]
    empty: the result with an ignore list is the full hierarchy pruned
    of the ignored directories. *)
Theorem ignoring_is_pruning path ig1 ig2 :
  exists v,
    get_folder_hierarchy path (Some ig1) = Ok v
    /\ get_folder_hierarchy path (Some (ig1 ++ ig2)%list)
       = Ok (prune ig2 v).
Proof.
  exists (hierarchy ig1 path). split.
  - apply (get_folder_hierarchy_hierarchy path (Some ig1)).
  - rewrite get_folder_hierarchy_hierarchy. cbn [default_ignore].
    now rewrite hierarchy_app.
Qed.

(** X4.  The ignore list is used as a set: two lists with the same
    members, in any order and with any repetitions, give the same
    result. *)
Theorem ignore_list_is_a_set path ig1 ig2 :
  (forall name, In name ig1 <-> In name ig2) ->
  get_folder_hierarchy path (Some ig1) = get_folder_hierarchy path (Some ig2).
Proof.
  intros H. rewrite !get_folder_hierarchy_hierarchy. cbn [default_ignore].
  f_equal. apply hierarchy_ext. intros name _.
  apply contains_same_members, H.
Qed.

Lemma ignore_list_is_a_set_witness :
  get_folder_hierarchy sample_tree (Some ["docs"; "error"])
  = get_folder_hierarchy sample_tree (Some ["error"; "docs"; "error"]).
Proof.
  apply (@ignore_list_is_a_set sample_tree ["docs"; "error"]
           ["error"; "docs"; "error"]).
  intros name. simpl. tauto.
Defined.

(** X5.  A name that starts with a dot changes nothing in the ignore
    list: hidden entries are skipped before the list is consulted. *)
Theorem hidden_name_in_ignore_list_is_redundant path name ig :
  startswith_dot name = true ->
  get_folder_hierarchy path (Some (name :: ig))
  = get_folder_hierarchy path (Some ig).
Proof.
  intros H. rewrite !get_folder_hierarchy_hierarchy. cbn [default_ignore].
  f_equal. apply hierarchy_ext. intros n Hn.
  unfold contains. cbn [existsb].
  destruct (String.eqb n name) eqn:E; [| reflexivity].
  apply String.eqb_eq in E. subst n. congruence.
Qed.

Lemma hidden_name_in_ignore_list_is_redundant_witness :
  get_folder_hierarchy sample_tree (Some [".git"; "docs"])
  = get_folder_hierarchy sample_tree (Some ["docs"]).
Proof.
  apply (@hidden_name_in_ignore_list_is_redundant sample_tree ".git" ["docs"]).
  reflexivity.
Defined.

(** X6.  Files, hidden entries and ignored directories leave no trace:
    when the listing of [path] succeeds, the result is the one of a
    directory that holds the kept items only. *)
Theorem result_depends_on_kept_items ig path items :
  list_items path ig = Ok items ->
  get_folder_hierarchy path (Some ig)
  = get_folder_hierarchy (Dir None items) (Some ig).
Proof.
  intros H.
  assert (list_items (Dir None items) ig = Ok items) as H'.
  { unfold list_items. cbn [iterdir bind]. apply filterM_all_true.
    intros x Hx. destruct (list_items_In _ _ _ H Hx) as (_ & _ & _ & Hk).
    exact Hk. }
  rewrite !get_folder_hierarchy_hierarchy. cbn [default_ignore].
  now rewrite (hierarchy_items _ _ H), (hierarchy_items _ _ H').
Qed.

Lemma result_depends_on_kept_items_witness :
  get_folder_hierarchy sample_tree (Some ["docs"])
  = get_folder_hierarchy
      (Dir None [("vault", vault); ("error", Dir None [("log", Dir None [])])])
      (Some ["docs"]).
Proof.
  apply (@result_depends_on_kept_items ["docs"] sample_tree
           [("vault", vault); ("error", Dir None [("log", Dir None [])])]).
  reflexivity.
Defined.

(** X7.  The comprehension examines an entry before it consults the
    ignore list: a visible entry on which [is_dir()] raises turns the
    whole directory into a sentinel, even when its name is ignored, and
    none of the other entries is reported. *)
Theorem unexaminable_entry_fails_the_directory entries name e ignore_folders :
  In (name, NoStat e) entries ->
  startswith_dot name = false ->
  exists msg,
    get_folder_hierarchy (Dir None entries) ignore_folders
    = Ok (error_dict msg).
Proof.
  intros Hin Hvisible.
  assert (exists e',
             list_items (Dir None entries) (default_ignore ignore_folders)
             = Raise e') as [e' H].
  { unfold list_items. cbn [iterdir bind].
    apply (@filterM_raises _ _ _ (name, NoStat e) e Hin).
    unfold keep. cbn [fst snd]. rewrite Hvisible. reflexivity. }
  rewrite get_folder_hierarchy_hierarchy.
  apply hierarchy_raise in H. destruct (handler_total e') as [msg Hmsg].
  exists msg. congruence.
Qed.

Lemma unexaminable_entry_fails_the_directory_witness :
  exists msg,
    get_folder_hierarchy guarded_tree (Some ["locked"]) = Ok (error_dict msg).
Proof.
  apply (@unexaminable_entry_fails_the_directory
           [("open", Dir None [("inner", Dir None [])]);
            (".hidden", NoStat (PermissionError "[Errno 13] Permission denied"));
            ("locked", NoStat (PermissionError "[Errno 13] Permission denied"))]
           "locked" (PermissionError "[Errno 13] Permission denied")
           (Some ["locked"])).
  - simpl. auto.
  - reflexivity.
Defined.

(** X8.  A failure can be told from a folder named [error]: every
    dictionary of the result, at any position, either holds
    dictionaries only (a listed directory) or is the single pair of
    ["error"] with a string (a sentinel). *)
Theorem sentinels_are_recognisable path ignore_folders :
  exists v,
    get_folder_hierarchy path ignore_folders = Ok v
    /\ forall p d,
         subvalue p v = Some (VDict d) ->
         Forall (fun kv => is_dict (snd kv) = true) d
         \/ exists msg, d = [("error", VStr msg)].
Proof.
  eexists. split; [apply get_folder_hierarchy_hierarchy |].
  intros p d H.
  destruct (subvalue_visited _ _ _ H) as (n & _ & Hn).
  apply (hierarchy_shape _ _ Hn).
Qed.

(** X9.  The dictionaries of the result are exactly the visited
    directories: a position of the result holds a dictionary if and only
    if the traversal visits a directory at that position, and the
    dictionary is then the builder's result for that directory. *)
Theorem mappings_are_visited_directories ig root :
  exists v,
    get_folder_hierarchy root (Some ig) = Ok v
    /\ forall p d,
         subvalue p v = Some (VDict d)
         <-> exists n,
               visited ig root p n
               /\ get_folder_hierarchy n (Some ig) = Ok (VDict d).
Proof.
  eexists. split; [apply (get_folder_hierarchy_hierarchy root (Some ig)) |].
  cbn [default_ignore]. intros p d. split.
  - intros H. destruct (subvalue_visited _ _ _ H) as (n & Hv & Hn).
    exists n. split; [exact Hv |].
    rewrite get_folder_hierarchy_hierarchy. cbn [default_ignore].
    now rewrite Hn.
  - intros (n & Hv & Hn).
    rewrite get_folder_hierarchy_hierarchy in Hn. cbn [default_ignore] in Hn.
    apply Ok_injective in Hn. rewrite <- Hn. apply visited_subvalue, Hv.
Qed.

(** * Sentinels and positions *)

Lemma VDict_injective (d1 d2 : dict) : VDict d1 = VDict d2 -> d1 = d2.
Proof.
  congruence.
Qed.

(** A visited directory is an entry of the tree, at the same position. *)
Lemma visited_entry_at ig root p n : visited ig root p n -> entry_at root p n.
Proof.
  induction 1 as [n | path_obj items name item p n Hitems Hlast _ IH].
  - apply entry_here.
  - apply last_item_In in Hlast.
    destruct (list_items_In _ _ _ Hitems Hlast) as (entries & -> & Hin & _).
    eapply entry_below; eassumption.
Qed.

Lemma entry_at_snoc root p err entries k item :
  entry_at root p (Dir err entries) ->
  In (k, item) entries ->
  entry_at root (p ++ [k]) item.
Proof.
  intros H Hin. remember (Dir err entries) as d eqn:Hd.
  induction H as [n | err' entries' name item' p n Hin' H IH].
  - subst n. cbn [app]. eapply entry_below; [exact Hin | apply entry_here].
  - cbn [app]. eapply entry_below; [exact Hin' | apply IH, Hd].
Qed.

(** What the result holds below the position of a sentinel: the mark
    and its message, nothing else. *)
Lemma below_sentinel msg q x :
  subvalue q (VDict [("error", VStr msg)]) = Some x ->
  q = [] \/ (q = ["error"] /\ x = VStr msg).
Proof.
  destruct q as [| k q]; [auto |]. cbn [subvalue dict_get].
  destruct (String.eqb k "error") eqn:E; [| discriminate].
  apply String.eqb_eq in E. subst k.
  destruct q; cbn [subvalue]; [| discriminate].
  intros H. injection H as <-. auto.
Qed.

(** C6, as stated, fails: the directory [locked_with_error_file] holds a
    file named [error] and its listing is refused; the result has the
    key ["error"] at the very position of that file. *)
Lemma file_named_error_counterexample :
  entry_at locked_with_error_file ["error"] File
  /\ get_folder_hierarchy locked_with_error_file None
     = Ok (VDict [("error", VStr "Permission denied")])
  /\ subvalue ["error"] (VDict [("error", VStr "Permission denied")])
     = Some (VStr "Permission denied")
  /\ In "error" (all_keys (VDict [("error", VStr "Permission denied")])).
Proof.
  split; [| split; [reflexivity | split; [reflexivity | simpl; auto]]].
  eapply entry_below; [left; reflexivity | apply entry_here].
Qed.

(** C6, amended.  No key is produced from an entry that is not a
    directory.  Whatever the hierarchy holds under a key [k], at any
    position, is either the hierarchy of a directory that the tree has
    at that position, or the message of the sentinel of a visited
    directory whose listing failed, under the key ["error"], which is
    there whatever that directory holds.  And in every visited directory
    whose listing succeeds, the name of a file of that directory is
    not a key (names in a directory being distinct). *)
Theorem files_never_keys path ignore_folders :
  exists v,
    get_folder_hierarchy path ignore_folders = Ok v
    /\ (forall p k x,
          subvalue (p ++ [k]) v = Some x ->
          (k = "error"
           /\ exists msg n e,
                x = VStr msg
                /\ visited (default_ignore ignore_folders) path p n
                /\ list_items n (default_ignore ignore_folders) = Raise e)
          \/ (exists err entries,
                entry_at path (p ++ [k]) (Dir err entries)
                /\ get_folder_hierarchy (Dir err entries) ignore_folders
                   = Ok x))
    /\ (forall p entries items k,
          visited (default_ignore ignore_folders) path p (Dir None entries) ->
          list_items (Dir None entries) (default_ignore ignore_folders)
          = Ok items ->
          NoDup (map fst entries) ->
          In (k, File) entries ->
          subvalue (p ++ [k]) v = None).
Proof.
  eexists. split; [apply get_folder_hierarchy_hierarchy |]. split.
  - intros p k x H. rewrite subvalue_app in H.
    destruct (subvalue p (hierarchy (default_ignore ignore_folders) path))
      as [[s | d] |] eqn:Hp; try discriminate.
    destruct (subvalue_visited _ _ _ Hp) as (n & Hvisited & Hn).
    cbn [subvalue] in H.
    destruct (list_items_cases (default_ignore ignore_folders) n)
      as [[items Hl] | [e Hl]].
    + right. rewrite (hierarchy_items _ _ Hl) in Hn.
      apply VDict_injective in Hn. subst d. rewrite dict_get_fold in H.
      destruct (last_item k items) as [item |] eqn:Hlast; [| discriminate].
      injection H as <-.
      apply last_item_In in Hlast.
      destruct (list_items_In _ _ _ Hl Hlast) as (entries & -> & Hin & Hkeep).
      apply keep_true in Hkeep.
      destruct Hkeep as (_ & (err & es & Hdir) & _). cbn [snd] in Hdir.
      subst item. exists err, es. split.
      * eapply entry_at_snoc; [apply (visited_entry_at Hvisited) | exact Hin].
      * apply get_folder_hierarchy_hierarchy.
    + left. pose proof Hl as Hraise. apply hierarchy_raise in Hl.
      destruct (handler_total e) as [msg Hmsg]. rewrite Hmsg, Hn in Hl.
      apply Ok_injective in Hl. unfold error_dict in Hl.
      apply VDict_injective in Hl. subst d. cbn [dict_get] in H.
      destruct (String.eqb k "error") eqn:E; [| discriminate].
      apply String.eqb_eq in E. injection H as <-.
      split; [exact E |]. exists msg, n, e. auto.
  - intros p entries items k Hvisited Hitems Hnodup Hfile.
    rewrite subvalue_app, (visited_subvalue Hvisited).
    rewrite (hierarchy_items _ _ Hitems). cbn [subvalue].
    rewrite dict_get_fold.
    destruct (last_item k items) as [x |] eqn:Hlast; [| reflexivity].
    apply last_item_In in Hlast.
    destruct (list_items_In _ _ _ Hitems Hlast) as (es & Heq & Hin & Hkeep).
    injection Heq as <-.
    rewrite (distinct_names_entry _ _ _ _ Hnodup Hin Hfile) in Hkeep.
    unfold keep in Hkeep. cbn [fst snd is_dir bind] in Hkeep.
    destruct (negb (startswith_dot k)); discriminate.
Qed.

Lemma files_never_keys_witness :
  exists v,
    get_folder_hierarchy sample_tree (Some ["docs"]) = Ok v
    /\ subvalue ["notes.txt"] v = None
    /\ subvalue ["vault"; "error"] v = Some (VStr "Permission denied").
Proof.
  destruct (files_never_keys sample_tree (Some ["docs"]))
    as (v & Hv & Hkeys & Hfiles).
  exists v. split; [exact Hv |]. split.
  - apply (Hfiles []
             [("docs", Dir None [("drafts", Dir None []);
                                 ("error", Dir None [])]);
              ("vault", vault);
              ("error", Dir None [("log", Dir None [])]);
              (".git", Dir None [("objects", Dir None [])]);
              ("notes.txt", File)]
             [("vault", vault); ("error", Dir None [("log", Dir None [])])]).
    + apply visited_root.
    + reflexivity.
    + repeat constructor; simpl; intuition discriminate.
    + simpl. auto 10.
  - vm_compute in Hv. injection Hv as <-. reflexivity.
Defined.

(** C2.  Every directory [d] that the traversal visits has, at its
    position [p] in the result, exactly what the builder returns for
    [d] alone, whatever its siblings and ancestors are.  When the
    listing of [d] fails with a permission error that is the dictionary
    [{"error": "Permission denied"}], when it fails otherwise the
    dictionary [{"error": str(e)}]; in both cases the result holds
    nothing below [p] but that pair, so nothing of what [d] holds.
    When the listing succeeds, each kept item has the builder's result
    for it under its name. *)
Theorem permission_error_is_local ig root p d :
  visited ig root p d ->
  exists out v,
    get_folder_hierarchy root (Some ig) = Ok out
    /\ get_folder_hierarchy d (Some ig) = Ok v
    /\ subvalue p out = Some v
    /\ match list_items d ig with
       | Raise (PermissionError _) =>
           v = VDict [("error", VStr "Permission denied")]
           /\ forall q x,
                subvalue (p ++ q) out = Some x ->
                q = [] \/ (q = ["error"] /\ x = VStr "Permission denied")
       | Raise (Exception msg) =>
           v = VDict [("error", VStr msg)]
           /\ forall q x,
                subvalue (p ++ q) out = Some x ->
                q = [] \/ (q = ["error"] /\ x = VStr msg)
       | Ok items =>
           exists result,
             v = VDict result
             /\ forall name,
                  dict_get name result
                  = match last_item name items with
                    | Some item => Some (hierarchy ig item)
                    | None => None
                    end
       end.
Proof.
  intros H. exists (hierarchy ig root), (hierarchy ig d).
  split; [apply (get_folder_hierarchy_hierarchy root (Some ig)) |].
  split; [apply (get_folder_hierarchy_hierarchy d (Some ig)) |].
  split; [apply visited_subvalue; exact H |].
  destruct (list_items d ig) as [items | e] eqn:Hl.
  - eexists. split; [apply (hierarchy_items _ _ Hl) |].
    intros name. rewrite dict_get_fold. reflexivity.
  - apply hierarchy_raise in Hl.
    assert (forall msg,
              hierarchy ig d = VDict [("error", VStr msg)] ->
              forall q x,
                subvalue (p ++ q) (hierarchy ig root) = Some x ->
                q = [] \/ (q = ["error"] /\ x = VStr msg)) as Hbelow.
    { intros msg Hd q x Hq.
      rewrite subvalue_app, (visited_subvalue H), Hd in Hq.
      apply (below_sentinel _ _ Hq). }
    destruct e as [m | m]; cbn [handler str] in Hl;
      apply Ok_injective in Hl; unfold error_dict in Hl; symmetry in Hl;
      (split; [exact Hl | apply Hbelow, Hl]).
Qed.

Lemma permission_error_is_local_witness :
  exists out v,
    get_folder_hierarchy sample_tree (Some ["docs"]) = Ok out
    /\ get_folder_hierarchy vault (Some ["docs"]) = Ok v
    /\ subvalue ["vault"] out = Some v
    /\ match list_items vault ["docs"] with
       | Raise (PermissionError _) =>
           v = VDict [("error", VStr "Permission denied")]
           /\ forall q x,
                subvalue (["vault"] ++ q) out = Some x ->
                q = [] \/ (q = ["error"] /\ x = VStr "Permission denied")
       | Raise (Exception msg) =>
           v = VDict [("error", VStr msg)]
           /\ forall q x,
                subvalue (["vault"] ++ q) out = Some x ->
                q = [] \/ (q = ["error"] /\ x = VStr msg)
       | Ok items =>
           exists result,
             v = VDict result
             /\ forall name,
                  dict_get name result
                  = match last_item name items with
                    | Some item => Some (hierarchy ["docs"] item)
                    | None => None
                    end
       end.
Proof.
  apply (permission_error_is_local (ig := ["docs"]) (root := sample_tree)
           (p := ["vault"]) (d := vault)).
  eapply visited_item; [reflexivity | reflexivity | apply visited_root].
Defined.

(** * Further properties of the driver *)

Lemma os_path_isdir_lookup sys p :
  os_path_isdir sys p = true ->
  exists err entries, lookup sys p = Some (Dir err entries).
Proof.
  unfold os_path_isdir.
  destruct (lookup sys p) as [[| err entries | e] |]; try discriminate.
  eauto.
Qed.

Lemma open_failure_run sys args e :
  os_path_isdir sys (path args) = true ->
  open_error sys (output args) = Some e ->
  run sys args
  = (Raise e,
     Print ("Building folder hierarchy from '" ++ path args ++ "'...")
       :: ignoring_line (ignore args)).
Proof.
  intros Hdir Hopen.
  destruct (os_path_isdir_lookup _ _ Hdir) as (err & entries & Hlookup).
  unfold run, main, os_path_exists, os_path_isdir.
  rewrite Hlookup. cbn [negb].
  unfold seq, print, lift, json_dump_file, ret, get_folder_hierarchy_at.
  rewrite Hlookup, get_folder_hierarchy_hierarchy, Hopen.
  destruct (ignore args); reflexivity.
Qed.

(** The five ways in which a run can go. *)
Lemma run_cases sys args :
  let before :=
    Print ("Building folder hierarchy from '" ++ path args ++ "'...")
      :: ignoring_line (ignore args) in
  run sys args
  = (Ok tt, [Print ("Error: Path '" ++ path args ++ "' does not exist.")])
  \/ run sys args
     = (Ok tt,
        [Print ("Error: Path '" ++ path args ++ "' is not a directory.")])
  \/ (exists e, run sys args = (Raise e, before))
  \/ run sys args
     = (Raise UnicodeEncodeError, (before ++ [Partial (output args)])%list)
  \/ exists text,
       run sys args
       = (Ok tt,
          (before
             ++ [Write (output args) text;
                 Print ("Folder hierarchy saved to '" ++ output args ++ "'")])
          %list).
Proof.
  intros before.
  destruct (os_path_exists sys (path args)) eqn:Hexists.
  - destruct (os_path_isdir sys (path args)) eqn:Hdir.
    + destruct (os_path_isdir_lookup _ _ Hdir) as (err & entries & Hlookup).
      destruct (open_error sys (output args)) as [e |] eqn:Hopen.
      * right. right. left. exists e. subst before.
        unfold run, main, os_path_exists, os_path_isdir.
        rewrite Hlookup. cbn [negb].
        unfold seq, print, lift, json_dump_file, ret, get_folder_hierarchy_at.
        rewrite Hlookup, get_folder_hierarchy_hierarchy, Hopen.
        destruct (ignore args); reflexivity.
      * rewrite (run_on_directory _ _ Hlookup Hopen).
        destruct (encodable _); eauto 10.
    + right. left. unfold run, main. rewrite Hexists, Hdir. reflexivity.
  - left. unfold run, main. rewrite Hexists. reflexivity.
Qed.

(** X10.  A run touches no file but the output file, and touches it at
    most once. *)
Theorem run_touches_only_the_output sys args :
  Forall (fun e => touched e = None \/ touched e = Some (output args))
    (snd (run sys args))
  /\ length (filter (fun e => match touched e with
                              | Some _ => true
                              | None => false
                              end) (snd (run sys args))) <= 1.
Proof.
  assert (forall l, Forall is_print l ->
            Forall (fun e => touched e = None \/ touched e = Some (output args))
              l
            /\ filter (fun e => match touched e with
                                | Some _ => true
                                | None => false
                                end) l = []) as Hprints.
  { induction 1 as [| e l He _ [IH1 IH2]]; [split; [constructor | reflexivity] |].
    destruct e; try destruct He. split; [constructor; auto |].
    cbn [filter touched]. exact IH2. }
  assert (Forall is_print
            (Print ("Building folder hierarchy from '" ++ path args ++ "'...")
               :: ignoring_line (ignore args))) as Hbefore.
  { constructor; [exact I | apply ignoring_line_prints]. }
  destruct (Hprints _ Hbefore) as [H1 H2].
  destruct (run_cases sys args) as [-> | [-> | [[e ->] | [-> | [text ->]]]]];
    cbn [snd].
  - split; [constructor; [left; reflexivity | constructor] | cbn; auto].
  - split; [constructor; [left; reflexivity | constructor] | cbn; auto].
  - split; [exact H1 | rewrite H2; cbn; auto].
  - split.
    + apply Forall_app. split; [exact H1 |].
      constructor; [right; reflexivity | constructor].
    + rewrite filter_app, H2. cbn. auto.
  - split.
    + apply Forall_app. split; [exact H1 |].
      constructor; [right; reflexivity |].
      constructor; [left; reflexivity | constructor].
    + rewrite filter_app, H2. cbn. auto.
Qed.

(** X11.  When the root is a directory and the output file cannot be
    opened, the exception of [open] leaves the run: the run has
    announced itself, and it neither touches a file nor prints the
    closing line. *)
Theorem open_failure_leaves_the_run sys args e :
  os_path_isdir sys (path args) = true ->
  open_error sys (output args) = Some e ->
  run sys args
  = (Raise e,
     Print ("Building folder hierarchy from '" ++ path args ++ "'...")
       :: ignoring_line (ignore args)).
Proof.
  apply open_failure_run.
Qed.

Lemma open_failure_leaves_the_run_witness :
  run readonly_system (sample_args "project" ["node_modules"])
  = (Raise (PermissionError "[Errno 13] Permission denied"),
     [Print "Building folder hierarchy from 'project'...";
      Print "Ignoring folders: node_modules"]).
Proof.
  apply (@open_failure_leaves_the_run readonly_system
           (sample_args "project" ["node_modules"])
           (PermissionError "[Errno 13] Permission denied"));
    reflexivity.
Defined.

(** X12.  The closing line is truthful: the run prints
    ["Folder hierarchy saved to ..."] exactly when it has written the
    whole document to the output file, and then it returns normally. *)
Theorem saved_line_means_written sys args :
  let saved :=
    Print ("Folder hierarchy saved to '" ++ output args ++ "'") in
  (In saved (snd (run sys args))
   <-> exists text, In (Write (output args) text) (snd (run sys args)))
  /\ (In saved (snd (run sys args)) -> fst (run sys args) = Ok tt).
Proof.
  intros saved. subst saved.
  assert (forall l file text,
            Forall is_print l -> ~ In (Write file text) l) as Hnowrite.
  { intros l file text Hl Hin. rewrite Forall_forall in Hl.
    apply (Hl _ Hin). }
  assert (~ In (Print ("Folder hierarchy saved to '" ++ output args ++ "'"))
            (Print ("Building folder hierarchy from '" ++ path args ++ "'...")
               :: ignoring_line (ignore args))) as Hnosaved.
  { intros [H | H]; [discriminate |].
    destruct (ignore args); [destruct H |].
    destruct H as [H | []]. discriminate. }
  pose proof (ignoring_line_prints (ignore args)) as Hign.
  assert (Forall is_print
            (Print ("Building folder hierarchy from '" ++ path args ++ "'...")
               :: ignoring_line (ignore args))) as Hbefore.
  { constructor; [exact I | exact Hign]. }
  destruct (run_cases sys args) as [-> | [-> | [[e ->] | [-> | [text ->]]]]];
    cbn [fst snd].
  - split; [split |]; intros H.
    + destruct H as [H | []]. discriminate.
    + destruct H as [t [H | []]]. discriminate.
    + reflexivity.
  - split; [split |]; intros H.
    + destruct H as [H | []]. discriminate.
    + destruct H as [t [H | []]]. discriminate.
    + reflexivity.
  - split; [split |]; intros H.
    + contradiction.
    + destruct H as [t H]. exfalso. apply (Hnowrite _ _ _ Hbefore H).
    + contradiction.
  - split; [split |]; intros H.
    + apply in_app_or in H. destruct H as [H | [H | []]];
        [contradiction | discriminate].
    + destruct H as [t H]. apply in_app_or in H.
      destruct H as [H | [H | []]]; [| discriminate].
      exfalso. apply (Hnowrite _ _ _ Hbefore H).
    + apply in_app_or in H. destruct H as [H | [H | []]];
        [contradiction | discriminate].
  - split; [split |]; intros H.
    + exists text. apply in_or_app. right. left. reflexivity.
    + apply in_or_app. right. right. left. reflexivity.
    + reflexivity.
Qed.

(** [basename] returns what follows the last separator. *)
Lemma basename_is_last_component :
  (forall p, has_sep (basename p) = false)
  /\ (forall dir name,
        has_sep name = false -> basename (dir ++ "/" ++ name) = name)
  /\ (forall name, has_sep name = false -> basename name = name).
Proof.
  assert (forall name, has_sep name = false -> basename name = name) as Hplain.
  { intros [| c name]; [reflexivity |]. cbn [has_sep basename].
    intros H. apply orb_false_iff in H. destruct H as [Hc Hn].
    now rewrite Hn, Hc. }
  split; [| split; [| exact Hplain]].
  - induction p as [| c p IH]; [reflexivity |]. cbn [basename].
    destruct (has_sep p) eqn:Hp; [exact IH |].
    destruct (Ascii.eqb c "/") eqn:Hc; [exact Hp |].
    cbn [has_sep]. now rewrite Hc, Hp.
  - intros dir name Hname. change ("/" ++ name) with (String "/" name).
    induction dir as [| c dir IH].
    + cbn [append basename]. rewrite Hname. reflexivity.
    + cbn [append basename].
      assert (has_sep (dir ++ String "/" name) = true) as ->; [| exact IH].
      clear IH. induction dir as [| x dir IH]; cbn [append has_sep].
      * reflexivity.
      * rewrite IH. apply orb_true_r.
Qed.

(** X13.  Whatever a run writes is a dictionary with one key, and that
    key holds no path separator: it is the last component of the
    absolute root path, also when that name is hidden or ignored. *)
Theorem root_key_is_a_single_component sys args file text :
  In (Write file text) (snd (run sys args)) ->
  exists node_value,
    text = dumps (VDict [(basename (abspath sys (path args)), node_value)])
    /\ has_sep (basename (abspath sys (path args))) = false.
Proof.
  intros Hin.
  assert (Forall is_print
            (Print ("Building folder hierarchy from '" ++ path args ++ "'...")
               :: ignoring_line (ignore args))) as Hbefore.
  { constructor; [exact I | apply ignoring_line_prints]. }
  rewrite Forall_forall in Hbefore.
  destruct (os_path_exists sys (path args)) eqn:Hexists.
  - destruct (os_path_isdir sys (path args)) eqn:Hdir.
    + destruct (os_path_isdir_lookup _ _ Hdir) as (err & entries & Hlookup).
      destruct (open_error sys (output args)) as [e |] eqn:Hopen.
      * rewrite (open_failure_run _ _ Hdir Hopen) in Hin.
        destruct (Hbefore _ Hin).
      * rewrite (run_on_directory _ _ Hlookup Hopen) in Hin.
        destruct (encodable _) in Hin; cbn [snd] in Hin;
          apply in_app_or in Hin; destruct Hin as [Hin | Hin];
          try (destruct (Hbefore _ Hin)).
        -- destruct Hin as [Hin | [Hin | []]]; [| discriminate].
           injection Hin as _ <-. eexists. split; [reflexivity |].
           apply basename_is_last_component.
        -- destruct Hin as [Hin | []]. discriminate.
    + exfalso. unfold run, main in Hin. rewrite Hexists, Hdir in Hin.
      destruct Hin as [Hin | []]. discriminate.
  - exfalso. unfold run, main in Hin. rewrite Hexists in Hin.
    destruct Hin as [Hin | []]. discriminate.
Qed.

Lemma root_key_is_a_single_component_witness :
  exists node_value,
    dumps (VDict [("sample", hierarchy [".git"] sample_tree)])
    = dumps (VDict [(basename (abspath sample_system "sample"), node_value)])
    /\ has_sep (basename (abspath sample_system "sample")) = false.
Proof.
  apply (@root_key_is_a_single_component sample_system
           (sample_args "sample" [".git"]) "folder_hierarchy.json"
           (dumps (VDict [("sample", hierarchy [".git"] sample_tree)]))).
  vm_compute. do 2 right. left. reflexivity.
Defined.
